(** * Zoe: a tree-walking interpreter, embedded with an explicit JavaScript heap

    The interpreter is TypeScript: every runtime value is a JavaScript object
    [{tag, value}] with identity, strings are [Uint8Array] buffers, objects
    are plain JavaScript objects used as maps, and scopes are shared frames.
    The embedding keeps that sharing: values, buffers, maps and frames live in
    a heap and are passed around as references, and [evaluate] is a function
    in a state-and-exception monad over that heap, driven by fuel. *)

From Stdlib Require Import ZArith String Ascii PrimFloat FloatOps SpecFloat.
From stdpp Require Import gmap strings list fin_maps pretty.

Local Open Scope string_scope.
Local Set Warnings "-register-all".

(** ** Syntax (ast.ts, as used by the interpreter) *)

(** References into the heap are indices. *)
Abbreviation loc := nat (only parsing).

(** A [*_t] node of the source.  [Stmt | Expr] is one type because [evaluate]
    takes both.  A string literal node holds its [Uint8Array]: a reference into
    the heap.  [nid] of a function literal stands for the identity of the node
    object, which [==] compares.  A [block: BlockStmt_t] field is given by its
    statements. *)
Inductive Node :=
| VarStmt (symbol : string) (expr : Node)
| ExprStmt (expr : Node)
| BlockStmt (stmts : list Node)
| IfStmt (ifs : list (Node * list Node)) (dflt : option (list Node))
| ReturnStmt (expr : Node)
| IntegerLiteralExpr (value : Z)
| FloatLiteralExpr (value : float)
| NullLiteralExpr
| BooleanLiteralExpr (value : bool)
| StringLiteralExpr (value : loc)
| IdentifierExpr (symbol : string)
| BinaryExpr (left : Node) (operator : string) (right : Node)
| UnaryExpr (operator : string) (expr : Node)
| AssignmentExpr (assignee : Node) (operator : string) (value : Node)
| MemberExpr (left : Node) (right : Node)
| SubscriptExpr (left : Node) (right : Node)
| CallExpr (caller : Node) (args : list Node)
| ObjectLiteralExpr (properties : list (string * option Node))
| FunctionLiteralExpr (nid : nat) (parameters : list string) (block : list Node).

(** ** Runtime values (runtime.ts) *)

Inductive ValueType :=
| NULL | FLOAT | INTEGER | BOOLEAN | OBJECT | FUNCTION | STRING | JS_FN.

Definition ValueType_eqb (a b : ValueType) : bool :=
  match a, b with
  | NULL, NULL | FLOAT, FLOAT | INTEGER, INTEGER | BOOLEAN, BOOLEAN
  | OBJECT, OBJECT | FUNCTION, FUNCTION | STRING, STRING | JS_FN, JS_FN => true
  | _, _ => false
  end.

(** What a variable of type [RuntimeValue] holds when the program runs: a
    reference to a [{tag, value}] object, or (only through the member read of
    an inherited property [k]) the host object that [m[k]] is for a map [m]
    created by [{}]: a function of [Object.prototype], or [Object.prototype]
    itself for [__proto__].  Such an object has neither a [tag] nor a
    [value]. *)
Inductive JsVal :=
| JRef (l : loc)
| JHost (k : string).

(** The fields of a [{tag, value}] object other than the tag, which the
    constructor fixes and which no code changes. *)
Inductive Payload :=
| PNull
| PFloat (value : float)
| PInteger (value : Z)
| PBoolean (value : bool)
| PString (value : loc)
| PObject (value : loc)
| PFunction (captured : loc) (nid : nat) (parameters : list string)
            (block : list Node)
| PJsFn (value : nat).

Definition tagOf (p : Payload) : ValueType :=
  match p with
  | PNull => NULL
  | PFloat _ => FLOAT
  | PInteger _ => INTEGER
  | PBoolean _ => BOOLEAN
  | PString _ => STRING
  | PObject _ => OBJECT
  | PFunction _ _ _ _ => FUNCTION
  | PJsFn _ => JS_FN
  end.

(** [x.tag] for a value that may be a host object: [None] is [undefined]. *)
Definition tag (p : option Payload) : option ValueType := tagOf <$> p.

Definition tag_eqb (a b : option ValueType) : bool :=
  match a, b with
  | Some x, Some y => ValueType_eqb x y
  | None, None => true
  | _, _ => false
  end.

(** Modelled from the spec: scope.ts is not among the sources.  A frame maps
    identifiers to values and has an optional parent frame. *)
Record Scope_t := { parent : option loc; symbols : gmap string JsVal }.

(** ** The heap *)

Record Heap := {
  values : list Payload;                (* the {tag, value} objects *)
  buffers : list (list Z);              (* the Uint8Array objects *)
  objects : list (gmap string JsVal);   (* own properties of the map objects *)
  scopes : list Scope_t                 (* the frames *)
}.

Definition empty_heap : Heap :=
  {| values := []; buffers := []; objects := []; scopes := [] |}.

Definition set_values (h : Heap) (vs : list Payload) : Heap :=
  {| values := vs; buffers := buffers h; objects := objects h;
     scopes := scopes h |}.
Definition set_buffers (h : Heap) (bs : list (list Z)) : Heap :=
  {| values := values h; buffers := bs; objects := objects h;
     scopes := scopes h |}.
Definition set_objects (h : Heap) (os : list (gmap string JsVal)) : Heap :=
  {| values := values h; buffers := buffers h; objects := os;
     scopes := scopes h |}.
Definition set_scopes (h : Heap) (ss : list Scope_t) : Heap :=
  {| values := values h; buffers := buffers h; objects := objects h;
     scopes := ss |}.

(** ** Exceptions and the evaluation monad *)

(** [Error] is [new Error(message)] thrown by the interpreter, [Return] the
    class of the source that carries a returned value; [RangeError] and
    [TypeError] are thrown by the JavaScript runtime itself. *)
Inductive Exn :=
| Error (message : string)
| Return (value : JsVal)
| RangeError (message : string)
| TypeError (message : string).

(** [OutsideModel]: the run left what is modelled (a dangling reference, a
    write to the key [__proto__], a host function without a model). *)
Inductive Outcome (A : Type) :=
| Normal (a : A) (h : Heap)
| Throw (e : Exn) (h : Heap)
| OutOfFuel
| OutsideModel.
Arguments Normal {A} a h.
Arguments Throw {A} e h.
Arguments OutOfFuel {A}.
Arguments OutsideModel {A}.

Definition M (A : Type) : Type := Heap -> Outcome A.

Definition ret {A} (a : A) : M A := fun h => Normal a h.
Definition throw {A} (e : Exn) : M A := fun h => Throw e h.
Definition outside {A} : M A := fun _ => OutsideModel.
Definition bind {A B} (m : M A) (k : A -> M B) : M B :=
  fun h =>
    match m h with
    | Normal a h' => k a h'
    | Throw e h' => Throw e h'
    | OutOfFuel => OutOfFuel
    | OutsideModel => OutsideModel
    end.

Notation "'let*' x ':=' m 'in' k" := (bind m (fun x => k))
  (at level 10, x pattern, m at level 100, k at level 200).

(** [xs.map(f)] and [for (const x of xs) f(x)], left to right. *)
Fixpoint mapM {A B} (f : A -> M B) (xs : list A) : M (list B) :=
  match xs with
  | [] => ret []
  | x :: rest =>
      let* y := f x in
      let* ys := mapM f rest in
      ret (y :: ys)
  end.

Fixpoint forM_ {A B} (f : A -> M B) (xs : list A) : M unit :=
  match xs with
  | [] => ret tt
  | x :: rest => let* _ := f x in forM_ f rest
  end.

(** ** Heap access *)

Definition alloc (p : Payload) : M JsVal :=
  fun h => Normal (JRef (length (values h))) (set_values h (values h ++ [p])).

Definition NullValue : M JsVal := alloc PNull.
Definition FloatValue (value : float) : M JsVal := alloc (PFloat value).
Definition IntegerValue (value : Z) : M JsVal := alloc (PInteger value).
Definition BooleanValue (value : bool) : M JsVal := alloc (PBoolean value).
Definition StringValue (value : loc) : M JsVal := alloc (PString value).
Definition ObjectValue (value : loc) : M JsVal := alloc (PObject value).
Definition FunctionValue (captured : loc) (nid : nat)
    (parameters : list string) (block : list Node) : M JsVal :=
  alloc (PFunction captured nid parameters block).

(** The fields of the object a value refers to; [None] for a host object. *)
Definition payloadOf (v : JsVal) : M (option Payload) :=
  fun h =>
    match v with
    | JHost _ => Normal None h
    | JRef l =>
        match values h !! l with
        | Some p => Normal (Some p) h
        | None => OutsideModel
        end
    end.

(** [x.value = p] on the object at [l]. *)
Definition setPayload (l : loc) (p : Payload) : M unit :=
  fun h => Normal tt (set_values h (<[l := p]> (values h))).

Definition newBuffer (bytes : list Z) : M loc :=
  fun h => Normal (length (buffers h)) (set_buffers h (buffers h ++ [bytes])).

Definition readBuffer (b : loc) : M (list Z) :=
  fun h =>
    match buffers h !! b with
    | Some bytes => Normal bytes h
    | None => OutsideModel
    end.

Definition writeBuffer (b : loc) (bytes : list Z) : M unit :=
  fun h => Normal tt (set_buffers h (<[b := bytes]> (buffers h))).

Definition newObject : M loc :=
  fun h => Normal (length (objects h)) (set_objects h (objects h ++ [∅])).

Definition readObject (o : loc) : M (gmap string JsVal) :=
  fun h =>
    match objects h !! o with
    | Some m => Normal m h
    | None => OutsideModel
    end.

Definition writeObject (o : loc) (m : gmap string JsVal) : M unit :=
  fun h => Normal tt (set_objects h (<[o := m]> (objects h))).

(** ** Scopes (scope.ts) *)

(** Modelled from the spec: [Scope(parent)] allocates an empty frame with an
    optional parent link. *)
Definition Scope (parent : option loc) : M loc :=
  fun h =>
    Normal (length (scopes h))
      (set_scopes h (scopes h ++ [{| parent := parent; symbols := ∅ |}])).

(** Modelled from the spec: the walk of the parent chain that [lookup] and
    [assign] share.  It gives the first frame of the chain starting at [scope]
    that binds [symbol], the chain being at most as long as the heap has
    frames.  [Some None]: no frame binds it; [None]: the chain leaves the
    heap. *)
Fixpoint findFrame (gas : nat) (frames : list Scope_t) (scope : loc)
    (symbol : string) : option (option loc) :=
  match gas with
  | O => None
  | S gas' =>
      match frames !! scope with
      | None => None
      | Some fr =>
          match symbols fr !! symbol with
          | Some _ => Some (Some scope)
          | None =>
              match parent fr with
              | None => Some None
              | Some p => findFrame gas' frames p symbol
              end
          end
      end
  end.

(** Modelled from the spec: [declare(name, value)] inserts into the current
    frame; redeclaring the same name in the same frame is a runtime error
    (the spec does not give its message). *)
Definition initVar (scope : loc) (symbol : string) (value : JsVal) : M unit :=
  fun h =>
    match scopes h !! scope with
    | None => OutsideModel
    | Some fr =>
        match symbols fr !! symbol with
        | Some _ =>
            Throw (Error ("error: variable " ++ symbol ++ " already declared"))
              h
        | None =>
            Normal tt
              (set_scopes h
                 (<[scope := {| parent := parent fr;
                                symbols := <[symbol := value]> (symbols fr) |}]>
                    (scopes h)))
        end
    end.

(** Modelled from the spec: Integer, Float, Boolean and Null are value-like;
    a String, an Object, a Function and a host function are shared by
    reference. *)
Definition value_like (p : Payload) : bool :=
  match p with
  | PNull | PFloat _ | PInteger _ | PBoolean _ => true
  | _ => false
  end.

(** Modelled from the spec: a value-like value is copied on pass, the copy
    being a new value object with the same fields; a shared value, and a
    host object, is passed as it is. *)
Definition copyOnPass (v : JsVal) : M JsVal :=
  let* p := payloadOf v in
  match p with
  | Some p' => if value_like p' then alloc p' else ret v
  | None => ret v
  end.

(** Modelled from the spec: [lookup(name)] walks the parent chain and returns
    the first binding or fails with "undefined variable [name]".  The binding
    is passed to the expression that names it: a value-like one as a copy, a
    shared one as the bound object itself. *)
Definition lookupVar (scope : loc) (symbol : string) : M JsVal :=
  fun h =>
    match findFrame (length (scopes h)) (scopes h) scope symbol with
    | None => OutsideModel
    | Some None => Throw (Error ("error: undefined variable " ++ symbol)) h
    | Some (Some f) =>
        match scopes h !! f ≫= (fun fr => symbols fr !! symbol) with
        | Some v => copyOnPass v h
        | None => OutsideModel
        end
    end.

(** Modelled from the spec: [assign(name, value)] walks the parent chain and
    overwrites the first existing binding; it fails with "undefined variable
    [name]" if there is none and never creates a binding. *)
Definition assignVar (scope : loc) (symbol : string) (value : JsVal)
    : M unit :=
  fun h =>
    match findFrame (length (scopes h)) (scopes h) scope symbol with
    | None => OutsideModel
    | Some None => Throw (Error ("error: undefined variable " ++ symbol)) h
    | Some (Some f) =>
        match scopes h !! f with
        | Some fr =>
            Normal tt
              (set_scopes h
                 (<[f := {| parent := parent fr;
                            symbols := <[symbol := value]> (symbols fr) |}]>
                    (scopes h)))
        | None => OutsideModel
        end
    end.

(** ** The JavaScript operations the interpreter relies on *)

(** [Number(z)] for a bigint [z]: the double nearest to [z], ties to even.
    The result of rounding an integer is an integer or an infinity, the
    latter being [None]. *)
Definition NumberOfBigInt (z : Z) : option Z :=
  let a := Z.abs z in
  if (a <? 2 ^ 53)%Z then Some z
  else
    let k := (Z.log2 a - 52)%Z in
    let q := Z.shiftr a k in
    let r := (a - Z.shiftl q k)%Z in
    let half := (2 ^ (k - 1))%Z in
    let q' := if ((half <? r) || ((r =? half) && Z.odd q))%Z
              then (q + 1)%Z else q in
    let m := Z.shiftl q' k in
    if (2 ^ 1024 <=? m)%Z then None else Some (Z.sgn z * m)%Z.

(** The conversion of a number to an element of a [Uint8Array] (ToUint8):
    an infinity becomes 0, an integer is taken modulo 256. *)
Definition ToUint8 (n : option Z) : Z :=
  match n with
  | None => 0%Z
  | Some z => (z mod 256)%Z
  end.

(** [a[Number(i)]] on a [Uint8Array] for a bigint [i].  An array has fewer
    than 2^53 elements, so [Number(i)] is [i] for every index inside it; it
    is negative for a negative [i], and then the read is [undefined]
    ([None]), as it is past the end. *)
Definition typedArrayGet (a : list Z) (i : Z) : option Z :=
  if (i <? 0)%Z then None else a !! Z.to_nat i.

(** [a[Number(i)] = b]: the write is dropped outside the array, whose length
    never changes. *)
Definition typedArraySet (a : list Z) (i : Z) (b : Z) : list Z :=
  if (i <? 0)%Z then a else <[Z.to_nat i := b]> a.

(** The properties every object created by [{}] inherits from
    [Object.prototype]. *)
Definition ObjectPrototype : list string :=
  [ "constructor"; "hasOwnProperty"; "isPrototypeOf"; "propertyIsEnumerable";
    "toLocaleString"; "toString"; "valueOf"; "__proto__";
    "__defineGetter__"; "__defineSetter__"; "__lookupGetter__";
    "__lookupSetter__" ].

Definition inherited (k : string) : bool :=
  bool_decide (k ∈ ObjectPrototype).

(** [m[k]] on an object created by [{}]: an own property, else the inherited
    one, else [undefined] ([None]). *)
Definition objectGet (m : gmap string JsVal) (k : string) : option JsVal :=
  match m !! k with
  | Some v => Some v
  | None => if inherited k then Some (JHost k) else None
  end.

(** [m[k] = v] on the map object at [o].  The key [__proto__] is a setter
    that replaces the prototype and creates no property: not modelled. *)
Definition objectSet (o : loc) (k : string) (v : JsVal) : M unit :=
  if String.eqb k "__proto__" then outside
  else
    let* m := readObject o in
    writeObject o (<[k := v]> m).

(** [x % y] on numbers: the remainder of the truncated division, computed
    exactly, with the sign of [x]. *)
Definition float_rem (x y : float) : float :=
  match Prim2SF x, Prim2SF y with
  | S754_nan, _ | _, S754_nan => nan
  | S754_infinity _, _ => nan
  | _, S754_zero _ => nan
  | S754_zero _, _ => x
  | S754_finite _ _ _, S754_infinity _ => x
  | S754_finite sx mx ex, S754_finite sy my ey =>
      let e := Z.min ex ey in
      let X := (Z.pos mx * 2 ^ (ex - e))%Z in
      let Y := (Z.pos my * 2 ^ (ey - e))%Z in
      match (X mod Y)%Z with
      | Z.pos r =>
          SF2Prim
            (binary_normalize prec emax (if sx then Z.neg r else Z.pos r) e
               false)
      | _ => if sx then neg_zero else zero
      end
  end.

(** The two loops of [+] on strings, over a zero-filled array of the summed
    length: the second loop reads [r] at the index it writes. *)
Definition concatLoops (l r : list Z) : list Z :=
  let u8Array := replicate (length l + length r) 0%Z in
  let u8Array :=
    foldl (fun u i => <[i := default 0%Z (l !! i)]> u) u8Array
      (seq 0 (length l)) in
  foldl (fun u i => <[i := default 0%Z (r !! i)]> u) u8Array
    (seq (length l) (length r)).

(** [lhs.value === rhs.value]: no conversion; numbers compare as doubles,
    buffers, maps, function literal nodes and host closures by identity, and
    the missing [value] of a host object is [undefined]. *)
Definition strictEquals (a b : option Payload) : bool :=
  match a, b with
  | None, None => true
  | Some PNull, Some PNull => true
  | Some (PFloat x), Some (PFloat y) => PrimFloat.eqb x y
  | Some (PInteger x), Some (PInteger y) => (x =? y)%Z
  | Some (PBoolean x), Some (PBoolean y) => Bool.eqb x y
  | Some (PString x), Some (PString y) => Nat.eqb x y
  | Some (PObject x), Some (PObject y) => Nat.eqb x y
  | Some (PFunction _ x _ _), Some (PFunction _ y _ _) => Nat.eqb x y
  | Some (PJsFn x), Some (PJsFn y) => Nat.eqb x y
  | _, _ => false
  end.

(** ** The interpreter (interpreter.ts) *)

Section Interpreter.

(** The host closures a [JS_FN] value may hold, by number. *)
Variable jsfn : nat -> list JsVal -> M JsVal.

(** The evaluation functions call [evaluate] back: [ev] is that call. *)
Variable ev : Node -> loc -> M JsVal.

Definition evalSubscriptExpr (left right : Node) (scope : loc) : M JsVal :=
  let* lhs := ev left scope in
  let* rhs := ev right scope in
  let* lp := payloadOf lhs in
  let* rp := payloadOf rhs in
  match lp with
  | Some (PString buf) =>
      match rp with
      | Some (PInteger i) =>
          let* bytes := readBuffer buf in
          if (Z.of_nat (length bytes) <=? i)%Z then
            throw (Error "error: attempting to index outside of string range")
          else
            match typedArrayGet bytes i with
            | Some b => IntegerValue b
            | None => throw (TypeError "Cannot convert undefined to a BigInt")
            end
      | _ =>
          throw (Error "error: subscript expression expects integer argument")
      end
  | _ => throw (Error "error: lhs of subscript expresssion must be a string")
  end.

Definition evalUnaryExpr (operator : string) (expr : Node) (scope : loc)
    : M JsVal :=
  let* rhs := ev expr scope in
  let* rp := payloadOf rhs in
  if String.eqb operator "!" then
    match rhs, rp with
    | JRef l, Some (PBoolean b) =>
        let* _ := setPayload l (PBoolean (negb b)) in
        ret rhs
    | _, _ =>
        throw
          (Error "error: unary operator '!' only allowed for boolean values")
    end
  else if String.eqb operator "-" then
    match rhs, rp with
    | JRef l, Some (PFloat x) =>
        let* _ := setPayload l (PFloat (x * -1)%float) in
        ret rhs
    | JRef l, Some (PInteger x) =>
        let* _ := setPayload l (PInteger (x * -1)%Z) in
        ret rhs
    | _, _ =>
        throw
          (Error
             "error: unary operator '-' only allowed for float or int values")
    end
  else
    throw
      (Error
         ("error: unable to evaluate '" ++ operator
          ++ "' as unary operator expression")).

(** The [switch] of [evalBinaryExpr] on the two evaluated operands [lp] and
    [rp].  Where the source tests [lhs.tag] after it found the two tags
    equal, the match is on both operands. *)
Definition binarySwitch (operator : string) (lp rp : option Payload)
    : M JsVal :=
  let same := tag_eqb (tag lp) (tag rp) in
  if String.eqb operator "and" then
    match lp, rp with
    | Some (PBoolean a), Some (PBoolean b) => BooleanValue (a && b)
    | _, _ =>
        throw
          (Error
             "error: both sides of 'and' operator must be boolean expressions")
    end
  else if String.eqb operator "or" then
    match lp, rp with
    | Some (PBoolean a), Some (PBoolean b) => BooleanValue (a || b)
    | _, _ =>
        throw
          (Error
             "error: both sides of 'or' operator must be boolean expressions")
    end
  else if String.eqb operator "==" then
    if strictEquals lp rp then BooleanValue true else BooleanValue false
  else if String.eqb operator "!=" then
    if negb (strictEquals lp rp) then BooleanValue true
    else BooleanValue false
  else if String.eqb operator "<" then
    if negb same then
      throw (Error "error: operands for '<' must be of the same type")
    else
      match lp, rp with
      | Some (PInteger a), Some (PInteger b) => BooleanValue (a <? b)%Z
      | Some (PFloat a), Some (PFloat b) => BooleanValue (a <? b)%float
      | _, _ =>
          throw (Error "error: operands for '<' must be of type int or float")
      end
  else if String.eqb operator ">" then
    if negb same then
      throw (Error "error: operands for '>' must be of the same type")
    else
      match lp, rp with
      | Some (PInteger a), Some (PInteger b) => BooleanValue (b <? a)%Z
      | Some (PFloat a), Some (PFloat b) => BooleanValue (b <? a)%float
      | _, _ =>
          throw (Error "error: operands for '>' must be of type int or float")
      end
  else if String.eqb operator "+" then
    if negb same then
      throw (Error "error: operands for '+' must be of the same time")
    else
      match lp, rp with
      | Some (PInteger a), Some (PInteger b) => IntegerValue (a + b)%Z
      | Some (PFloat a), Some (PFloat b) => FloatValue (a + b)%float
      | Some (PString a), Some (PString b) =>
          let* l := readBuffer a in
          let* r := readBuffer b in
          let* u8Array := newBuffer (concatLoops l r) in
          StringValue u8Array
      | _, _ =>
          throw
            (Error
               "error: operands for '+' must be of type int, float, or string")
      end
  else if String.eqb operator "-" then
    if negb same then
      throw (Error "error: operands for '-' must be of the same time")
    else
      match lp, rp with
      | Some (PInteger a), Some (PInteger b) => IntegerValue (a - b)%Z
      | Some (PFloat a), Some (PFloat b) => FloatValue (a - b)%float
      | _, _ =>
          throw (Error "error: operands for '-' must be of type int or float")
      end
  else if String.eqb operator "*" then
    if negb same then
      throw (Error "error: operands for '*' must be of the same time")
    else
      match lp, rp with
      | Some (PInteger a), Some (PInteger b) => IntegerValue (a * b)%Z
      | Some (PFloat a), Some (PFloat b) => FloatValue (a * b)%float
      | _, _ =>
          throw (Error "error: operands for '*' must be of type int or float")
      end
  else if String.eqb operator "/" then
    if negb same then
      throw (Error "error: operands for '/' must be of the same time")
    else
      match lp, rp with
      | Some (PInteger a), Some (PInteger b) =>
          if (b =? 0)%Z then
            throw (Error "error: division by zero not allowed")
          else IntegerValue (Z.quot a b)
      | Some (PFloat a), Some (PFloat b) =>
          if (b =? 0)%float then
            throw (Error "error: division by zero not allowed")
          else FloatValue (a / b)%float
      | _, _ =>
          throw (Error "error: operands for '/' must be of type int or float")
      end
  else if String.eqb operator "%" then
    if negb same then
      throw (Error "error: operands for '%' must be of the same time")
    else
      match lp, rp with
      | Some (PInteger a), Some (PInteger b) =>
          (* the bigint [%] of JavaScript throws on a zero divisor *)
          if (b =? 0)%Z then throw (RangeError "Division by zero")
          else IntegerValue (Z.rem a b)
      | Some (PFloat a), Some (PFloat b) => FloatValue (float_rem a b)
      | _, _ =>
          throw (Error "error: operands for '%' must be of type int or float")
      end
  else
    throw
      (Error
         ("error: unable to evaluate '" ++ operator
          ++ "' as binary operator expression")).

Definition evalBinaryExpr (left : Node) (operator : string) (right : Node)
    (scope : loc) : M JsVal :=
  let* lhs := ev left scope in
  let* rhs := ev right scope in
  let* lp := payloadOf lhs in
  let* rp := payloadOf rhs in
  binarySwitch operator lp rp.

Definition evalIdentifierExpr (symbol : string) (scope : loc) : M JsVal :=
  lookupVar scope symbol.

Definition evalObjectLiteralExpr (properties : list (string * option Node))
    (scope : loc) : M JsVal :=
  let* m := newObject in
  let* _ :=
    forM_
      (fun '(symbol, value) =>
         let* v :=
           match value with
           | None => lookupVar scope symbol
           | Some e => ev e scope
           end in
         objectSet m symbol v)
      properties in
  ObjectValue m.

Definition evalMemberExpr (left right : Node) (scope : loc) : M JsVal :=
  let* parentVal := ev left scope in
  let* pp := payloadOf parentVal in
  match pp with
  | Some (PObject o) =>
      match right with
      | IdentifierExpr symbol =>
          let* m := readObject o in
          match objectGet m symbol with
          | Some childVal => ret childVal
          | None =>
              throw
                (Error
                   ("error: field " ++ symbol
                    ++ " is not present on calling object"))
          end
      | _ =>
          throw
            (Error
               "error: right hand side of dot operator must be an identifier")
      end
  | _ => throw (Error "error: dot operator can only be called on type object")
  end.

Definition evalAssignmentExpr (assignee : Node) (operator : string)
    (value : Node) (scope : loc) : M JsVal :=
  if String.eqb operator "=" then
    match assignee with
    | IdentifierExpr symbol =>
        let* value := ev value scope in
        let* _ := assignVar scope symbol value in
        ret value
    | MemberExpr left' right' =>
        let* parentVal := ev left' scope in
        let* pp := payloadOf parentVal in
        match pp with
        | Some (PObject o) =>
            match right' with
            | IdentifierExpr symbol =>
                let* value := ev value scope in
                let* _ := objectSet o symbol value in
                ret value
            | _ =>
                throw
                  (Error
                     "error: right hand side of dot operator must be an identifier")
            end
        | _ =>
            throw
              (Error "error: dot operator can only be called on type object")
        end
    | SubscriptExpr left' right' =>
        let* lhs := ev left' scope in
        let* rhs := ev right' scope in
        let* lp := payloadOf lhs in
        let* rp := payloadOf rhs in
        match lp with
        | Some (PString buf) =>
            match rp with
            | Some (PInteger i) =>
                let* bytes := readBuffer buf in
                if (Z.of_nat (length bytes) <=? i)%Z then
                  throw
                    (Error
                       "error: attempting to index outside of string range")
                else
                  let* value := ev value scope in
                  let* vp := payloadOf value in
                  match vp with
                  | Some (PInteger v) =>
                      (* [lhs.value[Number(rhs.value)] = Number(value.value)]
                         reads the fields of [lhs] and [rhs] now *)
                      let* lp' := payloadOf lhs in
                      let* rp' := payloadOf rhs in
                      match lp', rp' with
                      | Some (PString buf'), Some (PInteger i') =>
                          let* bytes' := readBuffer buf' in
                          let* _ :=
                            writeBuffer buf'
                              (typedArraySet bytes' i'
                                 (ToUint8 (NumberOfBigInt v))) in
                          ret value
                      | _, _ => outside
                      end
                  | _ =>
                      throw
                        (Error
                           "error: string index can only be assigned to type integer")
                  end
            | _ =>
                throw
                  (Error
                     "error: subscript expression expects integer argument")
            end
        | _ =>
            throw (Error "error: lhs of subscript expresssion must be a string")
        end
    | _ =>
        throw
          (Error "error: assignee must be an identifier or object property")
    end
  else
    throw
      (Error
         ("error: unable to evaluate '" ++ operator
          ++ "' as assignment expression")).

Definition evalBlockStmt (stmts : list Node) (scope : loc) : M JsVal :=
  let* _ := forM_ (fun stmt => ev stmt scope) stmts in
  NullValue.

(** [try { m } catch (error) { if (error instanceof Return) return
    error.value; throw error; } return NullValue();] *)
Definition catchReturn (m : M JsVal) : M JsVal :=
  fun h =>
    match m h with
    | Normal _ h' => NullValue h'
    | Throw (Return value) h' => Normal value h'
    | Throw e h' => Throw e h'
    | OutOfFuel => OutOfFuel
    | OutsideModel => OutsideModel
    end.

(** The part of [evalCallExpr] that follows the evaluation of the arguments
    and of the callee: the call of [fn] on [args]. *)
Definition invoke (fn : JsVal) (args : list JsVal) : M JsVal :=
  let* fp := payloadOf fn in
  match fp with
  | Some (PJsFn f) => jsfn f args
  | Some (PFunction captured _ parameters block) =>
      if negb (Nat.eqb (length args) (length parameters)) then
        throw
          (Error
             ("error: function call expected " ++ pretty (length parameters)
              ++ " args, received " ++ pretty (length args)))
      else
        let* newScope := Scope (Some captured) in
        let* _ :=
          forM_ (fun '(parameter, arg) => initVar newScope parameter arg)
            (zip parameters args) in
        catchReturn (evalBlockStmt block newScope)
  | _ => throw (Error "error: non function types are not callable")
  end.

Definition evalCallExpr (caller : Node) (args : list Node) (scope : loc)
    : M JsVal :=
  let* args := mapM (fun expr => ev expr scope) args in
  let* fn := ev caller scope in
  invoke fn args.

Definition evalVarStmt (symbol : string) (expr : Node) (scope : loc)
    : M JsVal :=
  let* value := ev expr scope in
  let* _ := initVar scope symbol value in
  NullValue.

Definition evalExprStmt (expr : Node) (scope : loc) : M JsVal :=
  let* _ := ev expr scope in
  NullValue.

Definition evalReturnStmt (expr : Node) (scope : loc) : M JsVal :=
  let* value := ev expr scope in
  throw (Return value).

Fixpoint evalIfStmt (ifs : list (Node * list Node))
    (dflt : option (list Node)) (scope : loc) : M JsVal :=
  match ifs with
  | (condition, block) :: rest =>
      let* rv := ev condition scope in
      let* p := payloadOf rv in
      match p with
      | Some (PBoolean b) =>
          if b then
            let* inner := Scope (Some scope) in
            let* _ := evalBlockStmt block inner in
            NullValue
          else evalIfStmt rest dflt scope
      | _ => throw (Error "error: if condition must be a boolean expression")
      end
  | [] =>
      match dflt with
      | Some block =>
          let* inner := Scope (Some scope) in
          let* _ := evalBlockStmt block inner in
          NullValue
      | None => NullValue
      end
  end.

(** The [switch] of [evaluate] on the node's tag. *)
Definition evaluateNode (node : Node) (scope : loc) : M JsVal :=
  match node with
  | VarStmt symbol expr => evalVarStmt symbol expr scope
  | ExprStmt expr => evalExprStmt expr scope
  | IntegerLiteralExpr value => IntegerValue value
  | FloatLiteralExpr value => FloatValue value
  | NullLiteralExpr => NullValue
  | BooleanLiteralExpr value =>
      if value then BooleanValue true else BooleanValue false
  | BinaryExpr left' operator right' =>
      evalBinaryExpr left' operator right' scope
  | IdentifierExpr symbol => evalIdentifierExpr symbol scope
  | ObjectLiteralExpr properties => evalObjectLiteralExpr properties scope
  | AssignmentExpr assignee operator value =>
      evalAssignmentExpr assignee operator value scope
  | MemberExpr left' right' => evalMemberExpr left' right' scope
  | CallExpr caller args => evalCallExpr caller args scope
  | BlockStmt stmts =>
      let* inner := Scope (Some scope) in
      evalBlockStmt stmts inner
  | FunctionLiteralExpr nid parameters block =>
      FunctionValue scope nid parameters block
  | ReturnStmt expr => evalReturnStmt expr scope
  | UnaryExpr operator expr => evalUnaryExpr operator expr scope
  | IfStmt ifs dflt => evalIfStmt ifs dflt scope
  | StringLiteralExpr value => StringValue value
  | SubscriptExpr left' right' => evalSubscriptExpr left' right' scope
  end.

End Interpreter.

(** [evaluate], with the depth of the calls it may nest as fuel. *)
Fixpoint evaluate (jsfn : nat -> list JsVal -> M JsVal) (fuel : nat)
    (node : Node) (scope : loc) : M JsVal :=
  match fuel with
  | O => fun _ => OutOfFuel
  | S fuel' => evaluateNode jsfn (evaluate jsfn fuel') node scope
  end.

(** The loop of [interpret]. *)
Fixpoint interpretLoop (ev : Node -> loc -> M JsVal) (stmts : list Node)
    (scope : loc) (lastEval : JsVal) : M JsVal :=
  match stmts with
  | [] => ret lastEval
  | stmt :: rest =>
      let* lastEval := ev stmt scope in
      interpretLoop ev rest scope lastEval
  end.

Definition interpret (jsfn : nat -> list JsVal -> M JsVal) (fuel : nat)
    (stmts : list Node) (scope : loc) : M JsVal :=
  let* lastEval := NullValue in
  interpretLoop (evaluate jsfn fuel) stmts scope lastEval.

(** ** The root scope of main.ts *)

(** [strings.len] of main.ts. *)
Definition strings_len (rv_arr : list JsVal) : M JsVal :=
  match rv_arr with
  | [str] =>
      let* p := payloadOf str in
      match p with
      | Some (PString buf) =>
          let* bytes := readBuffer buf in
          IntegerValue (Z.of_nat (length bytes))
      | _ => throw (Error "error: strings.len function expects a string")
      end
  | _ => throw (Error "error: strings.len function expects one argument")
  end.

(** The host closures with a model: number 0 is [strings.len]; [print] and
    [panic] write text and are left out. *)
Definition builtins (f : nat) (args : list JsVal) : M JsVal :=
  match f with
  | O => strings_len args
  | _ => outside
  end.

(** ** Definitions used to state the properties *)

Definition is_logical (operator : string) : Prop :=
  operator = "and" \/ operator = "or".

Definition logical_message (operator : string) : string :=
  "error: both sides of '" ++ operator
  ++ "' operator must be boolean expressions".

Definition logical_result (operator : string) (a b : bool) : bool :=
  if String.eqb operator "and" then a && b else a || b.


(** The frame of main.ts before any declaration, and the heap a parser
    leaves behind: the buffers of the string literals and the root frame. *)
Definition root_scope : Scope_t := {| parent := None; symbols := ∅ |}.

Definition parsed (literals : list (list Z)) : Heap :=
  {| values := []; buffers := literals; objects := []; scopes := [root_scope] |}.

(** Expressions of the examples: [1 / 0], [!1] and [fn (a, a) { }]. *)
Definition one_over_zero : Node :=
  BinaryExpr (IntegerLiteralExpr 1) "/" (IntegerLiteralExpr 0).

Definition not_one : Node := UnaryExpr "!" (IntegerLiteralExpr 1).

Definition fn_a_a : Node := FunctionLiteralExpr 0 ["a"; "a"] [].

(** The call as the spec words it: the callee is evaluated, then the
    arguments from left to right, then the call is performed. *)
Definition evalCallExpr_callee_first (jsfn : nat -> list JsVal -> M JsVal)
    (ev : Node -> loc -> M JsVal) (caller : Node) (args : list Node)
    (scope : loc) : M JsVal :=
  let* fn := ev caller scope in
  let* args := mapM (fun expr => ev expr scope) args in
  invoke jsfn ev fn args.

Definition arity_message (parameters : list string) (args : list JsVal)
    : string :=
  "error: function call expected " ++ pretty (length parameters)
  ++ " args, received " ++ pretty (length args).

(** The frame of a call as the spec words it: its parent is the captured
    scope, and each parameter is bound to the matching argument. *)
Definition call_frame (captured : loc) (parameters : list string)
    (args : list JsVal) : Scope_t :=
  {| parent := Some captured; symbols := list_to_map (zip parameters args) |}.

(** The call of a Function value as the spec words it: an arity error when
    the counts differ, and otherwise the body evaluated in the new frame, with
    Null for a body that falls through and the carried value for a Return. *)
Definition invoke_as_specified (ev : Node -> loc -> M JsVal) (captured : loc)
    (parameters : list string) (block : list Node) (args : list JsVal)
    : M JsVal :=
  if negb (Nat.eqb (length args) (length parameters)) then
    throw (Error (arity_message parameters args))
  else
    fun h =>
      catchReturn (evalBlockStmt ev block (length (scopes h)))
        (set_scopes h (scopes h ++ [call_frame captured parameters args])).

(** ** What evaluation keeps of a heap *)

(** The fields a value object may come to hold: the unary operators replace
    a Boolean by a Boolean and a number by a number of the same type;
    nothing else is written to a value object. *)
Definition same_kind (p q : Payload) : Prop :=
  match p with
  | PFloat _ => exists x, q = PFloat x
  | PInteger _ => exists x, q = PInteger x
  | PBoolean _ => exists x, q = PBoolean x
  | _ => q = p
  end.

(** [h'] comes after [h]: every value object is still there with fields of
    the same kind, and every buffer is still there with the same length. *)
Definition heap_extends (h h' : Heap) : Prop :=
  (forall l p,
      values h !! l = Some p ->
      exists q, values h' !! l = Some q /\ same_kind p q)
  /\
  (forall b bytes,
      buffers h !! b = Some bytes ->
      exists bytes', buffers h' !! b = Some bytes'
                     /\ length bytes' = length bytes).

(** The heap a computation ends in comes after the heap it started in. *)
Definition grows {A} (m : M A) (h : Heap) : Prop :=
  match m h with
  | Normal _ h' | Throw _ h' => heap_extends h h'
  | OutOfFuel | OutsideModel => True
  end.

(** The assumption on host functions: they keep value objects and buffers. *)
Definition host_grows (jsfn : nat -> list JsVal -> M JsVal) : Prop :=
  forall f args h, grows (jsfn f args) h.

(** ** The state in which main.ts starts a program *)

(** The heap of main.ts before a program runs, given the buffers of the
    string literals of the program: the [strings] object with its [len], and
    the root frame with [print], [panic] and [strings].  The host closures
    are numbered 0 for [strings.len], 1 for [print] and 2 for [panic]. *)
Definition globalScope (literals : list (list Z)) : Heap :=
  {| values := [PJsFn 0; PObject 0; PJsFn 1; PJsFn 2];
     buffers := literals;
     objects := [{["len" := JRef 0]}];
     scopes :=
       [{| parent := None;
           symbols :=
             {["print" := JRef 2; "panic" := JRef 3; "strings" := JRef 1]} |}]
  |}.

(** The fields of the value a run ends with, if it ends with a value. *)
Definition result_payload (o : Outcome JsVal) : option Payload :=
  match o with
  | Normal (JRef l) h => values h !! l
  | _ => None
  end.

(** The bytes of the String a run ends with. *)
Definition result_bytes (o : Outcome JsVal) : option (list Z) :=
  match o with
  | Normal (JRef l) h =>
      match values h !! l with
      | Some (PString b) => buffers h !! b
      | _ => None
      end
  | _ => None
  end.

(** ** Definitions used to state further properties *)

(** The operators that require operands of the same type. *)
Definition typed_operators : list string :=
  ["<"; ">"; "+"; "-"; "*"; "/"; "%"].

(** The message of their first check: "type" for the two comparisons, "time"
    for the five others. *)
Definition mismatch_message (operator : string) : string :=
  "error: operands for '" ++ operator ++ "' must be of the same "
  ++ (if String.eqb operator "<" || String.eqb operator ">"
      then "type" else "time").

Definition ordering_message (operator : string) : string :=
  "error: operands for '" ++ operator ++ "' must be of type int or float".

(** A value object added at the end of the heap. *)
Definition with_value (h : Heap) (p : Payload) : Heap :=
  set_values h (values h ++ [p]).

(** The assignees [evalAssignmentExpr] accepts. *)
Definition is_assignable (assignee : Node) : bool :=
  match assignee with
  | IdentifierExpr _ | MemberExpr _ _ | SubscriptExpr _ _ => true
  | _ => false
  end.

(** The guards of [ifs] evaluate to [false] one after the other, from the
    heap [h] to the heap [h']. *)
Fixpoint guards_false (ev : Node -> loc -> M JsVal)
    (ifs : list (Node * list Node)) (scope : loc) (h h' : Heap) : Prop :=
  match ifs with
  | [] => h' = h
  | (condition, _) :: rest =>
      exists rv h1,
        ev condition scope h = Normal rv h1
        /\ payloadOf rv h1 = Normal (Some (PBoolean false)) h1
        /\ guards_false ev rest scope h1 h'
  end.

(** The branch of an [if] that is taken: the block in a new child frame of
    [scope], then a new Null. *)
Definition take_branch (ev : Node -> loc -> M JsVal) (block : list Node)
    (scope : loc) : M JsVal :=
  let* inner := Scope (Some scope) in
  let* _ := evalBlockStmt ev block inner in
  NullValue.

(** ** Buffers hold bytes *)

Definition is_byte (x : Z) : Prop := (0 <= x < 256)%Z.

(** Every element of every buffer is a byte, as in a [Uint8Array]. *)
Definition bytes_ok (h : Heap) : Prop :=
  forall b bytes, buffers h !! b = Some bytes -> Forall is_byte bytes.

(** A computation started in a heap of bytes ends in a heap of bytes. *)
Definition keeps_bytes {A} (m : M A) (h : Heap) : Prop :=
  bytes_ok h ->
  match m h with
  | Normal _ h' | Throw _ h' => bytes_ok h'
  | OutOfFuel | OutsideModel => True
  end.

(** The assumption on host functions: they store bytes only. *)
Definition host_keeps_bytes (jsfn : nat -> list JsVal -> M JsVal) : Prop :=
  forall f args h, keeps_bytes (jsfn f args) h.

(** The property of an object literal written in full: the shorthand [name]
    stands for [name: name]. *)
Definition longhand (property : string * option Node)
    : string * option Node :=
  match property with
  | (symbol, None) => (symbol, Some (IdentifierExpr symbol))
  | (symbol, Some value) => (symbol, Some value)
  end.

(** The right-hand sides the dot operator accepts. *)
Definition is_identifier (node : Node) : bool :=
  match node with
  | IdentifierExpr _ => true
  | _ => false
  end.

(** ** Reasoning principles *)

Local Open Scope list_scope.

Lemma evaluate_S jsfn fuel node scope :
  evaluate jsfn (S fuel) node scope
  = evaluateNode jsfn (evaluate jsfn fuel) node scope.
Proof. reflexivity. Qed.

Lemma bind_Normal {A B} (m : M A) (k : A -> M B) h a h' :
  m h = Normal a h' -> bind m k h = k a h'.
Proof. intros E. unfold bind. now rewrite E. Qed.

Lemma bind_Throw {A B} (m : M A) (k : A -> M B) h e h' :
  m h = Throw e h' -> bind m k h = Throw e h'.
Proof. intros E. unfold bind. now rewrite E. Qed.

(** A read of the fields does not change the heap. *)
Lemma payloadOf_heap v h p h' : payloadOf v h = Normal p h' -> h' = h.
Proof.
  unfold payloadOf. destruct v as [l|k].
  - destruct (values h !! l); congruence.
  - congruence.
Qed.

Lemma payloadOf_JRef l h p :
  values h !! l = Some p -> payloadOf (JRef l) h = Normal (Some p) h.
Proof. intros E. unfold payloadOf. now rewrite E. Qed.

(** Only an object with a [BOOLEAN] tag has a Boolean payload. *)
Lemma tag_not_BOOLEAN (p : option Payload) :
  tag p <> Some BOOLEAN ->
  match p with Some (PBoolean _) => False | _ => True end.
Proof. destruct p as [[]|]; simpl; intros H; try exact I. now apply H. Qed.

Ltac step_bind H := rewrite (bind_Normal _ _ _ _ _ H).

(** ** The seed scenarios of the spec, run on the embedding *)

(** [var x = 1 + 2 * 3; x;] *)
Example seed_arithmetic :
  result_payload
    (interpret builtins 4
       [VarStmt "x"
          (BinaryExpr (IntegerLiteralExpr 1) "+"
             (BinaryExpr (IntegerLiteralExpr 2) "*" (IntegerLiteralExpr 3)));
        IdentifierExpr "x"]
       0 (globalScope []))
  = Some (PInteger 7).
Proof. vm_compute. reflexivity. Qed.

(** [var make = fn (n) { return fn () { n = n + 1; return n; }; };
     var c = make(10); c(); c(); c();] *)
Example seed_closure_capture :
  result_payload
    (interpret builtins 6
       [VarStmt "make"
          (FunctionLiteralExpr 0 ["n"]
             [ReturnStmt
                (FunctionLiteralExpr 1 []
                   [ExprStmt
                      (AssignmentExpr (IdentifierExpr "n") "="
                         (BinaryExpr (IdentifierExpr "n") "+"
                            (IntegerLiteralExpr 1)));
                    ReturnStmt (IdentifierExpr "n")])]);
        VarStmt "c" (CallExpr (IdentifierExpr "make") [IntegerLiteralExpr 10]);
        ExprStmt (CallExpr (IdentifierExpr "c") []);
        ExprStmt (CallExpr (IdentifierExpr "c") []);
        CallExpr (IdentifierExpr "c") []]
       0 (globalScope []))
  = Some (PInteger 13).
Proof. vm_compute. reflexivity. Qed.

(** [var a = { x: 1 }; var b = a; b.x = 42; a.x;] *)
Example seed_object_alias :
  result_payload
    (interpret builtins 4
       [VarStmt "a" (ObjectLiteralExpr [("x", Some (IntegerLiteralExpr 1))]);
        VarStmt "b" (IdentifierExpr "a");
        ExprStmt
          (AssignmentExpr
             (MemberExpr (IdentifierExpr "b") (IdentifierExpr "x")) "="
             (IntegerLiteralExpr 42));
        MemberExpr (IdentifierExpr "a") (IdentifierExpr "x")]
       0 (globalScope []))
  = Some (PInteger 42).
Proof. vm_compute. reflexivity. Qed.

(** [var s = "hi"; strings.len(s);] and [var s = "hi"; s[0] = 72; s;] *)
Example seed_string_bytes :
  result_payload
    (interpret builtins 4
       [VarStmt "s" (StringLiteralExpr 0);
        CallExpr (MemberExpr (IdentifierExpr "strings") (IdentifierExpr "len"))
          [IdentifierExpr "s"]]
       0 (globalScope [[104; 105]%Z]))
  = Some (PInteger 2)
  /\
  result_bytes
    (interpret builtins 4
       [VarStmt "s" (StringLiteralExpr 0);
        ExprStmt
          (AssignmentExpr
             (SubscriptExpr (IdentifierExpr "s") (IntegerLiteralExpr 0)) "="
             (IntegerLiteralExpr 72));
        IdentifierExpr "s"]
       0 (globalScope [[104; 105]%Z]))
  = Some [72; 105]%Z.
Proof. split; vm_compute; reflexivity. Qed.

(** [var f = fn (n) { if n < 0 { return 0; } return n * 2; }; f(-1);] and
    [...; f(5);] *)
Example seed_non_local_return :
  let f :=
    FunctionLiteralExpr 0 ["n"]
      [IfStmt
         [(BinaryExpr (IdentifierExpr "n") "<" (IntegerLiteralExpr 0),
           [ReturnStmt (IntegerLiteralExpr 0)])]
         None;
       ReturnStmt (BinaryExpr (IdentifierExpr "n") "*" (IntegerLiteralExpr 2))]
  in
  result_payload
    (interpret builtins 6
       [VarStmt "f" f;
        CallExpr (IdentifierExpr "f")
          [UnaryExpr "-" (IntegerLiteralExpr 1)]]
       0 (globalScope []))
  = Some (PInteger 0)
  /\
  result_payload
    (interpret builtins 6
       [VarStmt "f" f; CallExpr (IdentifierExpr "f") [IntegerLiteralExpr 5]]
       0 (globalScope []))
  = Some (PInteger 10).
Proof. split; vm_compute; reflexivity. Qed.

(** [print(1 + "x");]: the error is raised while the argument is evaluated. *)
Example seed_type_error :
  exists h,
    interpret builtins 4
      [ExprStmt
         (CallExpr (IdentifierExpr "print")
            [BinaryExpr (IntegerLiteralExpr 1) "+" (StringLiteralExpr 0)])]
      0 (globalScope [[120]%Z])
    = Throw (Error "error: operands for '+' must be of the same time") h.
Proof. eexists. vm_compute. reflexivity. Qed.

(** [NumberOfBigInt] against the rounding of the Standard Library's
    specification of binary64: the double of [z] is the double of
    [NumberOfBigInt z], which [NumberOfBigInt] leaves as it is, or an
    infinity. *)
Example NumberOfBigInt_rounds_to_nearest_even :
  forallb
    (fun z =>
       match NumberOfBigInt z with
       | Some m =>
           SFeqb (binary_normalize prec emax z 0 false)
             (binary_normalize prec emax m 0 false)
           && bool_decide (NumberOfBigInt m = Some m)
       | None =>
           SFeqb (binary_normalize prec emax z 0 false)
             (S754_infinity (z <? 0)%Z)
       end)
    [0; 1; -1; 255; 2 ^ 53 - 1; 2 ^ 53; 2 ^ 53 + 1; 2 ^ 53 + 2; 2 ^ 53 + 3;
     - (2 ^ 53 + 1); - (2 ^ 53 + 3); 2 ^ 60 + 2 ^ 7; 2 ^ 60 + 2 ^ 7 + 1;
     2 ^ 60 + 3 * 2 ^ 7; 2 ^ 64 - 1; 10 ^ 30; - 10 ^ 30;
     2 ^ 1024 - 2 ^ 970 - 1; 2 ^ 1024 - 2 ^ 970; 2 ^ 1024;
     - 2 ^ 1024; 10 ^ 400]%Z
  = true.
Proof. vm_compute. reflexivity. Qed.

(** [float_rem] on exact operands: [5.5 % 2], [-5.5 % 2], [7 % -3],
    [-4 % 2], [5 % Infinity], [Infinity % 2] and [5 % 0]. *)
Example float_rem_values :
  float_rem 5.5 2 = 1.5%float
  /\ float_rem (-5.5) 2 = (-1.5)%float
  /\ float_rem 7 (-3) = 1%float
  /\ float_rem (-4) 2 = neg_zero
  /\ float_rem 5 infinity = 5%float
  /\ float_rem infinity 2 = nan
  /\ float_rem 5 0 = nan.
Proof. repeat apply conj; vm_compute; reflexivity. Qed.

(** ** Heaps only grow *)

Lemma same_kind_refl p : same_kind p p.
Proof. destruct p; simpl; eauto. Qed.

Lemma same_kind_trans p q r : same_kind p q -> same_kind q r -> same_kind p r.
Proof.
  destruct p; simpl; intros Hpq Hqr; try (subst q; exact Hqr);
    destruct Hpq as [x ->]; exact Hqr.
Qed.

Lemma heap_extends_refl h : heap_extends h h.
Proof.
  split.
  - intros l p Hp. exists p. split; [exact Hp | apply same_kind_refl].
  - intros b bytes Hb. exists bytes. split; [exact Hb | reflexivity].
Qed.

Lemma heap_extends_trans h1 h2 h3 :
  heap_extends h1 h2 -> heap_extends h2 h3 -> heap_extends h1 h3.
Proof.
  intros [Hv12 Hb12] [Hv23 Hb23]. split.
  - intros l p Hp. destruct (Hv12 l p Hp) as (q & Hq & Hpq).
    destruct (Hv23 l q Hq) as (r & Hr & Hqr).
    exists r. split; [exact Hr | now apply same_kind_trans with q].
  - intros b bytes Hb. destruct (Hb12 b bytes Hb) as (bytes2 & H2 & Hl2).
    destruct (Hb23 b bytes2 H2) as (bytes3 & H3 & Hl3).
    exists bytes3. split; [exact H3 | congruence].
Qed.

Lemma grows_ret {A} (a : A) h : grows (ret a) h.
Proof. apply heap_extends_refl. Qed.

Lemma grows_throw {A} e h : grows (@throw A e) h.
Proof. apply heap_extends_refl. Qed.

Lemma grows_outside {A} h : grows (@outside A) h.
Proof. exact I. Qed.

Lemma grows_bind {A B} (m : M A) (k : A -> M B) h :
  grows m h ->
  (forall a h', m h = Normal a h' -> grows (k a) h') ->
  grows (bind m k) h.
Proof.
  unfold grows, bind. intros Hm Hk.
  destruct (m h) as [a h'| e h'| |] eqn:E; try exact I; try exact Hm.
  specialize (Hk a h' eq_refl).
  destruct (k a h') as [b h''| e h''| |]; try exact I;
    now apply heap_extends_trans with h'.
Qed.

(** A step that only changes frames or map objects. *)
Lemma heap_extends_same h h' :
  values h' = values h -> buffers h' = buffers h -> heap_extends h h'.
Proof.
  intros Hv Hb. split.
  - intros l p Hp. exists p. rewrite Hv.
    split; [exact Hp | apply same_kind_refl].
  - intros b bytes Hbuf. exists bytes. rewrite Hb. now split.
Qed.

Lemma grows_alloc p h : grows (alloc p) h.
Proof.
  split; simpl.
  - intros l q Hq. exists q. split; [|apply same_kind_refl].
    now apply lookup_app_l_Some.
  - intros b bytes Hb. exists bytes. now split.
Qed.

Lemma grows_payloadOf v h : grows (payloadOf v) h.
Proof.
  unfold grows, payloadOf. destruct v as [l|k].
  - destruct (values h !! l); [apply heap_extends_refl | exact I].
  - apply heap_extends_refl.
Qed.

Lemma payloadOf_Some v h p h' :
  payloadOf v h = Normal (Some p) h' ->
  h' = h /\ exists l, v = JRef l /\ values h !! l = Some p.
Proof.
  unfold payloadOf. destruct v as [l|k]; [|discriminate].
  destruct (values h !! l) as [q|] eqn:E; [|discriminate].
  intros [= -> ->]. split; [reflexivity|]. now exists l.
Qed.

Lemma grows_setPayload l p q h :
  values h !! l = Some p -> same_kind p q -> grows (setPayload l q) h.
Proof.
  intros Hl Hk. unfold grows, setPayload, set_values.
  split; cbn [values buffers].
  - intros l' p' Hp'. destruct (decide (l' = l)) as [->|Hne].
    + exists q. split.
      * apply list_lookup_insert_eq. now apply lookup_lt_Some in Hl.
      * rewrite Hl in Hp'. now injection Hp' as <-.
    + exists p'. rewrite list_lookup_insert_ne by congruence.
      split; [exact Hp' | apply same_kind_refl].
  - intros b bytes Hb. exists bytes. now split.
Qed.

Lemma grows_newBuffer bytes h : grows (newBuffer bytes) h.
Proof.
  split; simpl.
  - intros l p Hp. exists p. split; [exact Hp | apply same_kind_refl].
  - intros b old Hb. exists old. split; [|reflexivity].
    now apply lookup_app_l_Some.
Qed.

Lemma grows_readBuffer b h : grows (readBuffer b) h.
Proof.
  unfold grows, readBuffer.
  destruct (buffers h !! b); [apply heap_extends_refl | exact I].
Qed.

Lemma readBuffer_Normal b h bytes h' :
  readBuffer b h = Normal bytes h' -> h' = h /\ buffers h !! b = Some bytes.
Proof.
  unfold readBuffer. destruct (buffers h !! b) eqn:E; [|discriminate].
  now intros [= -> ->].
Qed.

Lemma grows_writeBuffer b old bytes h :
  buffers h !! b = Some old -> length bytes = length old ->
  grows (writeBuffer b bytes) h.
Proof.
  intros Hb Hlen. unfold grows, writeBuffer, set_buffers.
  split; cbn [values buffers].
  - intros l p Hp. exists p. split; [exact Hp | apply same_kind_refl].
  - intros b' bytes' Hb'. destruct (decide (b' = b)) as [->|Hne].
    + exists bytes. split.
      * apply list_lookup_insert_eq. now apply lookup_lt_Some in Hb.
      * rewrite Hb in Hb'. injection Hb' as <-. exact Hlen.
    + exists bytes'. rewrite list_lookup_insert_ne by congruence. now split.
Qed.

Lemma grows_newObject h : grows newObject h.
Proof. now apply heap_extends_same. Qed.

Lemma grows_readObject o h : grows (readObject o) h.
Proof.
  unfold grows, readObject.
  destruct (objects h !! o); [apply heap_extends_refl | exact I].
Qed.

Lemma grows_writeObject o m h : grows (writeObject o m) h.
Proof. now apply heap_extends_same. Qed.

Lemma grows_objectSet o k v h : grows (objectSet o k v) h.
Proof.
  unfold objectSet. destruct (String.eqb k "__proto__"); [exact I|].
  apply grows_bind; [apply grows_readObject|].
  intros m h' _. apply grows_writeObject.
Qed.

Lemma grows_Scope p h : grows (Scope p) h.
Proof. now apply heap_extends_same. Qed.

Lemma grows_initVar scope symbol v h : grows (initVar scope symbol v) h.
Proof.
  unfold grows, initVar. destruct (scopes h !! scope) as [fr|]; [|exact I].
  destruct (symbols fr !! symbol);
    [apply heap_extends_refl | now apply heap_extends_same].
Qed.

Lemma grows_copyOnPass v h : grows (copyOnPass v) h.
Proof.
  unfold copyOnPass. apply grows_bind; [apply grows_payloadOf|].
  intros [p|] h1 _; [|apply grows_ret].
  destruct (value_like p); [apply grows_alloc | apply grows_ret].
Qed.

Lemma grows_lookupVar scope symbol h : grows (lookupVar scope symbol) h.
Proof.
  unfold grows, lookupVar.
  destruct (findFrame _ _ _ _) as [[f|]|]; try exact I;
    [|apply heap_extends_refl].
  destruct (scopes h !! f ≫= _) as [v|]; [|exact I].
  apply grows_copyOnPass.
Qed.

Lemma grows_assignVar scope symbol v h : grows (assignVar scope symbol v) h.
Proof.
  unfold grows, assignVar.
  destruct (findFrame _ _ _ _) as [[f|]|]; try exact I;
    [|apply heap_extends_refl].
  destruct (scopes h !! f); [now apply heap_extends_same | exact I].
Qed.

Lemma grows_mapM {A B} (f : A -> M B) (xs : list A) :
  (forall x h, grows (f x) h) -> forall h, grows (mapM f xs) h.
Proof.
  intros Hf. induction xs as [|x xs IH]; intros h; simpl.
  - apply grows_ret.
  - apply grows_bind; [apply Hf|]. intros y h1 _.
    apply grows_bind; [apply IH|]. intros ys h2 _. apply grows_ret.
Qed.

Lemma grows_forM_ {A B} (f : A -> M B) (xs : list A) :
  (forall x h, grows (f x) h) -> forall h, grows (forM_ f xs) h.
Proof.
  intros Hf. induction xs as [|x xs IH]; intros h; simpl.
  - apply grows_ret.
  - apply grows_bind; [apply Hf|]. intros y h1 _. apply IH.
Qed.

Lemma grows_catchReturn (m : M JsVal) h : grows m h -> grows (catchReturn m) h.
Proof.
  unfold grows, catchReturn. intros Hm.
  destruct (m h) as [a h'| e h'| |]; try exact I.
  - pose proof (grows_alloc PNull h') as Ha. unfold grows in Ha.
    simpl in *. now apply heap_extends_trans with h'.
  - destruct e; exact Hm.
Qed.

(** One step of a proof that a computation built from [bind] grows. *)
Ltac grows_step :=
  lazymatch goal with
  | |- grows (bind _ _) _ => apply grows_bind; [|intros ? ? ?]
  | |- grows (ret _) _ => apply grows_ret
  | |- grows (throw _) _ => apply grows_throw
  | |- grows outside _ => apply grows_outside
  | |- grows (payloadOf _) _ => apply grows_payloadOf
  | |- grows (readBuffer _) _ => apply grows_readBuffer
  | |- grows (newBuffer _) _ => apply grows_newBuffer
  | |- grows newObject _ => apply grows_newObject
  | |- grows (readObject _) _ => apply grows_readObject
  | |- grows (objectSet _ _ _) _ => apply grows_objectSet
  | |- grows (Scope _) _ => apply grows_Scope
  | |- grows (initVar _ _ _) _ => apply grows_initVar
  | |- grows (lookupVar _ _) _ => apply grows_lookupVar
  | |- grows (assignVar _ _ _) _ => apply grows_assignVar
  | |- grows NullValue _ => apply grows_alloc
  | |- grows (FloatValue _) _ => apply grows_alloc
  | |- grows (IntegerValue _) _ => apply grows_alloc
  | |- grows (BooleanValue _) _ => apply grows_alloc
  | |- grows (StringValue _) _ => apply grows_alloc
  | |- grows (ObjectValue _) _ => apply grows_alloc
  | |- grows (FunctionValue _ _ _ _) _ => apply grows_alloc
  | |- grows (if ?b then _ else _) _ => destruct b
  | |- grows (match ?x with _ => _ end) _ => destruct x
  end.

Section Grows.

Variable jsfn : nat -> list JsVal -> M JsVal.
Variable ev : Node -> nat -> M JsVal.
Hypothesis jsfn_grows : host_grows jsfn.
Hypothesis ev_grows : forall node scope h, grows (ev node scope) h.

Lemma grows_evalSubscriptExpr left right scope h :
  grows (evalSubscriptExpr ev left right scope) h.
Proof.
  unfold evalSubscriptExpr. repeat first [apply ev_grows | grows_step].
Qed.

Lemma grows_evalUnaryExpr operator expr scope h :
  grows (evalUnaryExpr ev operator expr scope) h.
Proof.
  unfold evalUnaryExpr. apply grows_bind; [apply ev_grows|].
  intros rhs h1 _. apply grows_bind; [apply grows_payloadOf|].
  intros rp h2 Hp.
  destruct (String.eqb operator "!"); [|destruct (String.eqb operator "-")];
    try apply grows_throw;
    destruct rhs as [l|k], rp as [p|]; try apply grows_throw;
    destruct p; try apply grows_throw;
    apply payloadOf_Some in Hp as (-> & l' & [= <-] & Hl);
    (apply grows_bind;
     [eapply grows_setPayload; [exact Hl | simpl; eauto]
     |intros; apply grows_ret]).
Qed.

Lemma grows_binarySwitch operator lp rp h :
  grows (binarySwitch operator lp rp) h.
Proof.
  unfold binarySwitch. repeat grows_step.
Qed.

Lemma grows_evalBinaryExpr left operator right scope h :
  grows (evalBinaryExpr ev left operator right scope) h.
Proof.
  unfold evalBinaryExpr.
  repeat first [apply ev_grows | apply grows_binarySwitch | grows_step].
Qed.

Lemma grows_evalObjectLiteralExpr properties scope h :
  grows (evalObjectLiteralExpr ev properties scope) h.
Proof.
  unfold evalObjectLiteralExpr. apply grows_bind; [apply grows_newObject|].
  intros m h1 _. apply grows_bind; [|intros; apply grows_alloc].
  apply grows_forM_. intros [symbol value] h2.
  repeat first [apply ev_grows | grows_step].
Qed.

Lemma grows_evalMemberExpr left right scope h :
  grows (evalMemberExpr ev left right scope) h.
Proof.
  unfold evalMemberExpr. repeat first [apply ev_grows | grows_step].
Qed.

Lemma grows_evalAssignmentExpr assignee operator value scope h :
  grows (evalAssignmentExpr ev assignee operator value scope) h.
Proof.
  unfold evalAssignmentExpr.
  destruct (String.eqb operator "="); [|apply grows_throw].
  destruct assignee; try apply grows_throw.
  - repeat first [apply ev_grows | grows_step].
  - repeat first [apply ev_grows | grows_step].
  - apply grows_bind; [apply ev_grows|]. intros lhs h1 _.
    apply grows_bind; [apply ev_grows|]. intros rhs h2 _.
    apply grows_bind; [apply grows_payloadOf|]. intros lp h3 _.
    apply grows_bind; [apply grows_payloadOf|]. intros rp h4 _.
    destruct lp as [[]|]; try apply grows_throw.
    destruct rp as [[]|]; try apply grows_throw.
    apply grows_bind; [apply grows_readBuffer|]. intros bytes h5 _.
    destruct (_ <=? _)%Z; [apply grows_throw|].
    apply grows_bind; [apply ev_grows|]. intros v h6 _.
    apply grows_bind; [apply grows_payloadOf|]. intros vp h7 _.
    destruct vp as [[]|]; try apply grows_throw.
    apply grows_bind; [apply grows_payloadOf|]. intros lp' h8 _.
    apply grows_bind; [apply grows_payloadOf|]. intros rp' h9 _.
    destruct lp' as [[]|]; try apply grows_outside.
    destruct rp' as [[]|]; try apply grows_outside.
    apply grows_bind; [apply grows_readBuffer|]. intros bytes' h10 Hb.
    apply readBuffer_Normal in Hb as [-> Hb].
    apply grows_bind; [|intros; apply grows_ret].
    eapply grows_writeBuffer; [exact Hb|].
    unfold typedArraySet. destruct (_ <? 0)%Z; [reflexivity|].
    apply length_insert.
Qed.

Lemma grows_evalBlockStmt stmts scope h :
  grows (evalBlockStmt ev stmts scope) h.
Proof.
  unfold evalBlockStmt. apply grows_bind; [|intros; apply grows_alloc].
  apply grows_forM_. intros stmt h1. apply ev_grows.
Qed.

Lemma grows_invoke fn args h : grows (invoke jsfn ev fn args) h.
Proof.
  unfold invoke. apply grows_bind; [apply grows_payloadOf|].
  intros fp h1 _. destruct fp as [[]|]; try apply grows_throw.
  - destruct (negb _); [apply grows_throw|].
    apply grows_bind; [apply grows_Scope|]. intros newScope h2 _.
    apply grows_bind.
    + apply grows_forM_. intros [parameter arg] h3. apply grows_initVar.
    + intros _ h3 _. apply grows_catchReturn, grows_evalBlockStmt.
  - apply jsfn_grows.
Qed.

Lemma grows_evalCallExpr caller args scope h :
  grows (evalCallExpr jsfn ev caller args scope) h.
Proof.
  unfold evalCallExpr. apply grows_bind.
  - apply grows_mapM. intros expr h1. apply ev_grows.
  - intros vs h1 _. apply grows_bind; [apply ev_grows|].
    intros fn h2 _. apply grows_invoke.
Qed.

Lemma grows_evalIfStmt ifs dflt scope :
  forall h, grows (evalIfStmt ev ifs dflt scope) h.
Proof.
  induction ifs as [|[condition block] rest IH]; intros h; simpl.
  - destruct dflt as [block|]; [|apply grows_alloc].
    repeat first [apply grows_evalBlockStmt | grows_step].
  - apply grows_bind; [apply ev_grows|]. intros rv h1 _.
    apply grows_bind; [apply grows_payloadOf|]. intros p h2 _.
    destruct p as [[]|]; try apply grows_throw.
    destruct value; [|apply IH].
    repeat first [apply grows_evalBlockStmt | grows_step].
Qed.

Lemma grows_evaluateNode node scope h :
  grows (evaluateNode jsfn ev node scope) h.
Proof.
  destruct node; simpl.
  - unfold evalVarStmt. repeat first [apply ev_grows | grows_step].
  - unfold evalExprStmt. repeat first [apply ev_grows | grows_step].
  - apply grows_bind; [apply grows_Scope|].
    intros inner h1 _. apply grows_evalBlockStmt.
  - apply grows_evalIfStmt.
  - unfold evalReturnStmt. repeat first [apply ev_grows | grows_step].
  - apply grows_alloc.
  - apply grows_alloc.
  - apply grows_alloc.
  - destruct value; apply grows_alloc.
  - apply grows_alloc.
  - apply grows_lookupVar.
  - apply grows_evalBinaryExpr.
  - apply grows_evalUnaryExpr.
  - apply grows_evalAssignmentExpr.
  - apply grows_evalMemberExpr.
  - apply grows_evalSubscriptExpr.
  - apply grows_evalCallExpr.
  - apply grows_evalObjectLiteralExpr.
  - apply grows_alloc.
Qed.

End Grows.

(** Evaluation keeps every value object, with fields of the same kind, and
    every buffer, with its length, whatever the outcome. *)
Lemma grows_evaluate jsfn :
  host_grows jsfn ->
  forall fuel node scope h, grows (evaluate jsfn fuel node scope) h.
Proof.
  intros Hhost. induction fuel as [|fuel IH]; intros node scope h.
  - exact I.
  - rewrite evaluate_S. now apply grows_evaluateNode.
Qed.

Lemma builtins_grow : host_grows builtins.
Proof.
  intros f args h. destruct f as [|f]; [|exact I].
  unfold builtins, strings_len.
  destruct args as [|str [|]]; try apply grows_throw.
  repeat grows_step.
Qed.

(** ** The logical operators *)

(** The two messages are those of the source. *)
Lemma logical_message_text :
  logical_message "and"
  = "error: both sides of 'and' operator must be boolean expressions"
  /\ logical_message "or"
     = "error: both sides of 'or' operator must be boolean expressions".
Proof. split; reflexivity. Qed.

Lemma binarySwitch_logical operator lp rp h :
  is_logical operator ->
  binarySwitch operator lp rp h =
    match lp, rp with
    | Some (PBoolean a), Some (PBoolean b) =>
        BooleanValue (logical_result operator a b) h
    | _, _ => Throw (Error (logical_message operator)) h
    end.
Proof.
  intros [-> | ->]; unfold binarySwitch, logical_result, logical_message;
    simpl; destruct lp as [[]|], rp as [[]|]; reflexivity.
Qed.

(** For [and] and [or] the left operand is evaluated first and the right
    operand is evaluated whenever the left one returned, whatever it
    returned: an exception of the right operand is the outcome even when the
    left value alone decides the conjunction or disjunction.  With both
    operands evaluated, the operator reads the two result objects: one that
    does not hold a Boolean gives the runtime error of the operator, and two
    Booleans give a new Boolean value, the conjunction for [and] and the
    disjunction for [or] of what the two objects hold at that point. *)
Lemma logical_operators_read_the_operands_last
    jsfn fuel (left right : Node) operator scope h :
  is_logical operator ->
  (forall e h1,
      evaluate jsfn fuel left scope h = Throw e h1 ->
      evaluate jsfn (S fuel) (BinaryExpr left operator right) scope h
      = Throw e h1) /\
  (forall lhs h1,
      evaluate jsfn fuel left scope h = Normal lhs h1 ->
      (forall e h2,
          evaluate jsfn fuel right scope h1 = Throw e h2 ->
          evaluate jsfn (S fuel) (BinaryExpr left operator right) scope h
          = Throw e h2) /\
      (forall rhs h2 lp rp,
          evaluate jsfn fuel right scope h1 = Normal rhs h2 ->
          payloadOf lhs h2 = Normal lp h2 ->
          payloadOf rhs h2 = Normal rp h2 ->
          (tag lp <> Some BOOLEAN \/ tag rp <> Some BOOLEAN ->
           evaluate jsfn (S fuel) (BinaryExpr left operator right) scope h
           = Throw (Error (logical_message operator)) h2) /\
          (forall a b,
              lp = Some (PBoolean a) -> rp = Some (PBoolean b) ->
              evaluate jsfn (S fuel) (BinaryExpr left operator right) scope h
              = Normal (JRef (length (values h2)))
                  (set_values h2
                     (values h2
                      ++ [PBoolean (logical_result operator a b)]))))).
Proof.
  intros Hop. rewrite evaluate_S. simpl. unfold evalBinaryExpr. split.
  - intros e h1 El. now rewrite (bind_Throw _ _ _ _ _ El).
  - intros lhs h1 El. step_bind El. split.
    + intros e h2 Er. now rewrite (bind_Throw _ _ _ _ _ Er).
    + intros rhs h2 lp rp Er Hl Hr. step_bind Er. step_bind Hl. step_bind Hr.
      rewrite binarySwitch_logical by exact Hop. split.
      * intros [Hn | Hn]; apply tag_not_BOOLEAN in Hn.
        -- destruct lp as [[]|]; try reflexivity; contradiction.
        -- destruct lp as [[]|], rp as [[]|]; try reflexivity; contradiction.
      * intros a b -> ->. reflexivity.
Qed.

(** C9 fails on the code.  In [var o = {b: false}; o.b and !o.b;] the left
    operand evaluates to [false] (third run below) and the right operand to
    [true], and the expression gives [true]: the right operand negates, in
    place, the object the left operand returned, and [and] reads that object
    only after both operands are evaluated.  In the same way
    [var o = {b: true}; o.b or !o.b;] gives [false]. *)
Theorem logical_operators_combine_a_changed_operand :
  interpret builtins 5
    [VarStmt "o" (ObjectLiteralExpr [("b", Some (BooleanLiteralExpr false))]);
     BinaryExpr (MemberExpr (IdentifierExpr "o") (IdentifierExpr "b")) "and"
       (UnaryExpr "!" (MemberExpr (IdentifierExpr "o") (IdentifierExpr "b")))]
    0 (parsed [])
  = Normal (JRef 4)
      {| values := [PNull; PBoolean true; PObject 0; PNull; PBoolean true];
         buffers := []; objects := [{["b" := JRef 1]}];
         scopes := [{| parent := None; symbols := {["o" := JRef 2]} |}] |}
  /\
  interpret builtins 5
    [VarStmt "o" (ObjectLiteralExpr [("b", Some (BooleanLiteralExpr true))]);
     BinaryExpr (MemberExpr (IdentifierExpr "o") (IdentifierExpr "b")) "or"
       (UnaryExpr "!" (MemberExpr (IdentifierExpr "o") (IdentifierExpr "b")))]
    0 (parsed [])
  = Normal (JRef 4)
      {| values := [PNull; PBoolean false; PObject 0; PNull; PBoolean false];
         buffers := []; objects := [{["b" := JRef 1]}];
         scopes := [{| parent := None; symbols := {["o" := JRef 2]} |}] |}
  /\
  interpret builtins 5
    [VarStmt "o" (ObjectLiteralExpr [("b", Some (BooleanLiteralExpr false))]);
     MemberExpr (IdentifierExpr "o") (IdentifierExpr "b")]
    0 (parsed [])
  = Normal (JRef 1)
      {| values := [PNull; PBoolean false; PObject 0; PNull];
         buffers := []; objects := [{["b" := JRef 1]}];
         scopes := [{| parent := None; symbols := {["o" := JRef 2]} |}] |}.
Proof. repeat apply conj; vm_compute; reflexivity. Qed.

(** ** Calls *)

(** The arguments of [expr.args.map] are evaluated from left to right. *)
Lemma mapM_cons {A B} (f : A -> M B) x rest h :
  mapM f (x :: rest) h =
    match f x h with
    | Normal y h1 =>
        match mapM f rest h1 with
        | Normal ys h2 => Normal (y :: ys) h2
        | Throw e h2 => Throw e h2
        | OutOfFuel => OutOfFuel
        | OutsideModel => OutsideModel
        end
    | Throw e h1 => Throw e h1
    | OutOfFuel => OutOfFuel
    | OutsideModel => OutsideModel
    end.
Proof.
  simpl. unfold bind. destruct (f x h); reflexivity.
Qed.

(** With the arguments and then the callee evaluated, a call is the call of
    the callee's value on the argument values. *)
Lemma call_reaches_invoke jsfn fuel (caller : Node) (args : list Node) scope
    h vs h1 fn h2 :
  mapM (fun expr => evaluate jsfn fuel expr scope) args h = Normal vs h1 ->
  evaluate jsfn fuel caller scope h1 = Normal fn h2 ->
  evaluate jsfn (S fuel) (CallExpr caller args) scope h
  = invoke jsfn (evaluate jsfn fuel) fn vs h2.
Proof.
  intros Ea Ec. rewrite evaluate_S. simpl. unfold evalCallExpr.
  step_bind Ea. now step_bind Ec.
Qed.

(** C2, as amended.  A call evaluates the argument expressions first, from
    left to right and each in the heap the previous one left; the callee
    expression is evaluated after the last argument, in the heap the arguments
    left, and the call is performed on the two results.  An exception of an
    argument ends the call before the callee is evaluated. *)
Theorem call_evaluates_arguments_then_callee
    jsfn fuel (caller : Node) (args : list Node) scope h :
  (forall e h1,
      mapM (fun expr => evaluate jsfn fuel expr scope) args h = Throw e h1 ->
      evaluate jsfn (S fuel) (CallExpr caller args) scope h = Throw e h1) /\
  (forall vs h1,
      mapM (fun expr => evaluate jsfn fuel expr scope) args h = Normal vs h1 ->
      (forall e h2,
          evaluate jsfn fuel caller scope h1 = Throw e h2 ->
          evaluate jsfn (S fuel) (CallExpr caller args) scope h = Throw e h2) /\
      (forall fn h2,
          evaluate jsfn fuel caller scope h1 = Normal fn h2 ->
          evaluate jsfn (S fuel) (CallExpr caller args) scope h
          = invoke jsfn (evaluate jsfn fuel) fn vs h2)) /\
  (forall arg rest v h1 vs h2,
      args = arg :: rest ->
      evaluate jsfn fuel arg scope h = Normal v h1 ->
      mapM (fun expr => evaluate jsfn fuel expr scope) rest h1 = Normal vs h2 ->
      mapM (fun expr => evaluate jsfn fuel expr scope) args h
      = Normal (v :: vs) h2).
Proof.
  rewrite evaluate_S. simpl. unfold evalCallExpr. split; [|split].
  - intros e h1 Ea. now rewrite (bind_Throw _ _ _ _ _ Ea).
  - intros vs h1 Ea. step_bind Ea. split.
    + intros e h2 Ec. now rewrite (bind_Throw _ _ _ _ _ Ec).
    + intros fn h2 Ec. now step_bind Ec.
  - intros arg rest v h1 vs h2 -> Ev Er. rewrite mapM_cons, Ev, Er.
    reflexivity.
Qed.

(** [(1 / 0)(0, !1)]: the first argument is evaluated, the second one throws,
    and the callee, which would throw as well, is not reached. *)
Lemma call_evaluates_arguments_then_callee_witness :
  evaluate builtins 3
    (CallExpr (BinaryExpr (IntegerLiteralExpr 1) "/" (IntegerLiteralExpr 0))
       [IntegerLiteralExpr 0; UnaryExpr "!" (IntegerLiteralExpr 1)])
    0 (parsed [])
  = Throw (Error "error: unary operator '!' only allowed for boolean values")
      {| values := [PInteger 0; PInteger 1]; buffers := []; objects := [];
         scopes := [root_scope] |}.
Proof.
  apply (proj1 (call_evaluates_arguments_then_callee builtins 2
           (BinaryExpr (IntegerLiteralExpr 1) "/" (IntegerLiteralExpr 0))
           [IntegerLiteralExpr 0; UnaryExpr "!" (IntegerLiteralExpr 1)]
           0 (parsed []))).
  vm_compute. reflexivity.
Defined.

(** C2, as stated, fails: on [(1 / 0)(!1)] the interpreter reports the error
    of the argument, while the callee-first order of the claim reports the
    division by zero of the callee. *)
Lemma call_callee_first_counterexample :
  evaluate builtins 3 (CallExpr one_over_zero [not_one]) 0 (parsed [])
  = Throw (Error "error: unary operator '!' only allowed for boolean values")
      {| values := [PInteger 1]; buffers := []; objects := [];
         scopes := [root_scope] |}
  /\ evalCallExpr_callee_first builtins (evaluate builtins 2) one_over_zero
       [not_one] 0 (parsed [])
     = Throw (Error "error: division by zero not allowed")
         {| values := [PInteger 1; PInteger 0]; buffers := []; objects := [];
            scopes := [root_scope] |}
  /\ evaluate builtins 3 (CallExpr one_over_zero [not_one]) 0 (parsed [])
     <> evalCallExpr_callee_first builtins (evaluate builtins 2) one_over_zero
          [not_one] 0 (parsed []).
Proof.
  assert (E1 : evaluate builtins 3 (CallExpr one_over_zero [not_one]) 0
                 (parsed [])
    = Throw (Error "error: unary operator '!' only allowed for boolean values")
        {| values := [PInteger 1]; buffers := []; objects := [];
           scopes := [root_scope] |}) by (vm_compute; reflexivity).
  assert (E2 : evalCallExpr_callee_first builtins (evaluate builtins 2)
                 one_over_zero [not_one] 0 (parsed [])
    = Throw (Error "error: division by zero not allowed")
        {| values := [PInteger 1; PInteger 0]; buffers := []; objects := [];
           scopes := [root_scope] |}) by (vm_compute; reflexivity).
  rewrite E1, E2. repeat split. discriminate.
Qed.

(** Declaring distinct parameters, none of them bound in the frame yet,
    succeeds and adds exactly the bindings of parameters to arguments. *)
Lemma initVar_parameters (ps : list string) :
  forall (vs : list JsVal) f fr h,
    scopes h !! f = Some fr ->
    NoDup ps ->
    (forall p, p ∈ ps -> symbols fr !! p = None) ->
    forM_ (fun '(parameter, arg) => initVar f parameter arg) (zip ps vs) h
    = Normal tt
        (set_scopes h
           (<[f := {| parent := parent fr;
                      symbols := list_to_map (zip ps vs) ∪ symbols fr |}]>
              (scopes h))).
Proof.
  assert (Hid : forall f fr h, scopes h !! f = Some fr ->
      Normal tt h = Normal tt
        (set_scopes h
           (<[f := {| parent := parent fr; symbols := ∅ ∪ symbols fr |}]>
              (scopes h)))).
  { intros f fr h Hf. rewrite (left_id_L ∅ (∪)).
    destruct fr as [pa sy]; simpl. rewrite list_insert_id by exact Hf.
    now destruct h. }
  induction ps as [|p ps IH]; intros vs f fr h Hf Hnd Hfresh.
  - simpl. now apply Hid.
  - destruct vs as [|v vs]; [simpl; now apply Hid|].
    simpl zip. cbn [forM_].
    apply NoDup_cons in Hnd as [Hp Hnd].
    assert (E : initVar f p v h = Normal tt
        (set_scopes h
           (<[f := {| parent := parent fr;
                      symbols := <[p := v]> (symbols fr) |}]> (scopes h)))).
    { unfold initVar. rewrite Hf. rewrite Hfresh by (left). reflexivity. }
    step_bind E.
    rewrite (IH vs f {| parent := parent fr;
                        symbols := <[p := v]> (symbols fr) |}).
    + simpl. unfold set_scopes; simpl. rewrite list_insert_insert_eq.
      do 3 f_equal. f_equal.
      rewrite <- insert_union_l. apply symmetry, insert_union_r.
      apply not_elem_of_list_to_map_1. intros Hin.
      apply list_elem_of_fmap in Hin as [[q a] [-> Hin]].
      apply elem_of_zip_l in Hin. contradiction.
    + simpl. apply list_lookup_insert_eq. now apply lookup_lt_Some in Hf.
    + exact Hnd.
    + intros q Hq. simpl. rewrite lookup_insert_ne.
      * apply Hfresh. now right.
      * intros ->. contradiction.
Qed.

(** With distinct parameters and as many arguments, the frame binds each
    parameter to the argument at its position. *)
Lemma call_frame_binds captured (ps : list string) (vs : list JsVal) i p a :
  NoDup ps -> length vs = length ps ->
  ps !! i = Some p -> vs !! i = Some a ->
  symbols (call_frame captured ps vs) !! p = Some a.
Proof.
  intros Hnd Hlen Hp Ha. simpl. apply elem_of_list_to_map_1.
  - rewrite fst_zip by lia. exact Hnd.
  - apply list_elem_of_lookup. exists i.
    apply lookup_zip_with_Some. eauto.
Qed.

Lemma catchReturn_Normal (m : M JsVal) h r h' :
  m h = Normal r h' ->
  catchReturn m h
  = Normal (JRef (length (values h'))) (set_values h' (values h' ++ [PNull])).
Proof. intros E. unfold catchReturn. now rewrite E. Qed.

Lemma catchReturn_Return (m : M JsVal) h v h' :
  m h = Throw (Return v) h' -> catchReturn m h = Normal v h'.
Proof. intros E. unfold catchReturn. now rewrite E. Qed.

Lemma catchReturn_Throw (m : M JsVal) h e h' :
  m h = Throw e h' -> (forall v, e <> Return v) ->
  catchReturn m h = Throw e h'.
Proof.
  intros E Hne. unfold catchReturn. rewrite E.
  destruct e; try reflexivity. now destruct (Hne value).
Qed.

(** The call of a Function value with distinct parameters does what the
    spec words. *)
Lemma invoke_function jsfn ev l args h captured nid parameters block :
  values h !! l = Some (PFunction captured nid parameters block) ->
  (length args <> length parameters ->
   invoke jsfn ev (JRef l) args h
   = Throw (Error (arity_message parameters args)) h) /\
  (length args = length parameters -> NoDup parameters ->
   invoke jsfn ev (JRef l) args h
   = catchReturn (evalBlockStmt ev block (length (scopes h)))
       (set_scopes h (scopes h ++ [call_frame captured parameters args]))).
Proof.
  intros Hl. unfold invoke. step_bind (payloadOf_JRef _ _ _ Hl). split.
  - intros Hlen. apply Nat.eqb_neq in Hlen. now rewrite Hlen.
  - intros Hlen Hnd. rewrite Hlen, Nat.eqb_refl.
    change (negb true) with false. cbv beta iota.
    unfold Scope at 1. unfold bind at 1. cbv beta iota.
    set (h' := set_scopes h
                 (scopes h ++ [{| parent := Some captured; symbols := ∅ |}])).
    assert (Hf : scopes h' !! length (scopes h)
                 = Some {| parent := Some captured; symbols := ∅ |}).
    { subst h'. simpl. apply list_lookup_middle. reflexivity. }
    rewrite (bind_Normal _ _ _ _ _
               (initVar_parameters parameters args _ _ h' Hf Hnd
                  (fun p _ => lookup_empty p))).
    f_equal. subst h'. unfold set_scopes, call_frame. simpl.
    rewrite (right_id_L ∅ (∪)). f_equal.
    replace (length (scopes h)) with (length (scopes h) + 0) at 1 by lia.
    now rewrite insert_app_r.
Qed.

(** C8, as amended.  A call whose callee is a Function value with captured
    scope [captured] fails with the arity error when the number of arguments
    differs from the number of parameters.  Otherwise, the parameter names
    being pairwise distinct, the body is evaluated in a new frame whose
    parent is [captured], whatever the scope of the caller is, and in which
    each parameter is bound to the argument at its position; the call gives a
    new Null when the body falls through, the carried value when the body
    unwinds with a Return, and any other exception of the body unchanged. *)
Theorem function_call_uses_captured_scope
    jsfn fuel (caller : Node) (args : list Node) scope h vs h1 l h2
    captured nid parameters block :
  mapM (fun expr => evaluate jsfn fuel expr scope) args h = Normal vs h1 ->
  evaluate jsfn fuel caller scope h1 = Normal (JRef l) h2 ->
  values h2 !! l = Some (PFunction captured nid parameters block) ->
  let call := evaluate jsfn (S fuel) (CallExpr caller args) scope h in
  let newScope := length (scopes h2) in
  let h3 := set_scopes h2 (scopes h2 ++ [call_frame captured parameters vs]) in
  let body := evalBlockStmt (evaluate jsfn fuel) block newScope h3 in
  (length vs <> length parameters ->
   call = Throw (Error (arity_message parameters vs)) h2) /\
  (length vs = length parameters -> NoDup parameters ->
   call = invoke_as_specified (evaluate jsfn fuel) captured parameters block
            vs h2 /\
   scopes h3 !! newScope = Some (call_frame captured parameters vs) /\
   parent (call_frame captured parameters vs) = Some captured /\
   (forall i p a,
       parameters !! i = Some p -> vs !! i = Some a ->
       symbols (call_frame captured parameters vs) !! p = Some a) /\
   (forall r h4,
       body = Normal r h4 ->
       call = Normal (JRef (length (values h4)))
                (set_values h4 (values h4 ++ [PNull]))) /\
   (forall v h4, body = Throw (Return v) h4 -> call = Normal v h4) /\
   (forall e h4,
       body = Throw e h4 -> (forall v, e <> Return v) -> call = Throw e h4)).
Proof.
  intros Ea Ec Hl call newScope h3 body.
  assert (Ecall : call = invoke jsfn (evaluate jsfn fuel) (JRef l) vs h2).
  { subst call. now apply call_reaches_invoke with h1. }
  destruct (invoke_function jsfn (evaluate jsfn fuel) l vs h2 captured nid
              parameters block Hl) as [Harity Hbody].
  split.
  - intros Hlen. rewrite Ecall. now apply Harity.
  - intros Hlen Hnd. rewrite Ecall, (Hbody Hlen Hnd).
    fold newScope h3 body. repeat apply conj.
    + unfold invoke_as_specified. now rewrite Hlen, Nat.eqb_refl.
    + subst h3 newScope. simpl. apply list_lookup_middle. reflexivity.
    + reflexivity.
    + intros i p a Hp Ha. now apply (call_frame_binds captured _ _ i).
    + intros r h4 Hb. now apply catchReturn_Normal with r.
    + intros v h4 Hb. now apply catchReturn_Return.
    + intros e h4 Hb Hne. now apply catchReturn_Throw.
Qed.

(** [(fn (a, b) { return b; })(1, 2)] gives the second argument. *)
Lemma function_call_uses_captured_scope_witness :
  evaluate builtins 4
    (CallExpr
       (FunctionLiteralExpr 0 ["a"; "b"] [ReturnStmt (IdentifierExpr "b")])
       [IntegerLiteralExpr 1; IntegerLiteralExpr 2])
    0 (parsed [])
  = Normal (JRef 3)
      {| values := [PInteger 1; PInteger 2;
                    PFunction 0 0 ["a"; "b"]
                      [ReturnStmt (IdentifierExpr "b")];
                    PInteger 2];
         buffers := []; objects := [];
         scopes := [root_scope; call_frame 0 ["a"; "b"] [JRef 0; JRef 1]] |}.
Proof.
  pose proof (function_call_uses_captured_scope builtins 3
    (FunctionLiteralExpr 0 ["a"; "b"] [ReturnStmt (IdentifierExpr "b")])
    [IntegerLiteralExpr 1; IntegerLiteralExpr 2] 0 (parsed [])
    [JRef 0; JRef 1]
    {| values := [PInteger 1; PInteger 2]; buffers := []; objects := [];
       scopes := [root_scope] |}
    2
    {| values := [PInteger 1; PInteger 2;
                  PFunction 0 0 ["a"; "b"] [ReturnStmt (IdentifierExpr "b")]];
       buffers := []; objects := []; scopes := [root_scope] |}
    0 0 ["a"; "b"] [ReturnStmt (IdentifierExpr "b")]
    ltac:(vm_compute; reflexivity) ltac:(vm_compute; reflexivity)
    eq_refl) as Hcall.
  apply proj2 in Hcall.
  specialize (Hcall eq_refl (bool_decide_unpack (NoDup ["a"; "b"]) I)).
  do 5 apply proj2 in Hcall. apply proj1 in Hcall.
  apply Hcall. vm_compute. reflexivity.
Defined.

(** C8, as stated, fails: in [(fn (a, a) { })(1, 2)] the argument count is
    the parameter count and the body falls through, yet the call does not
    produce Null: declaring the second [a] in the new frame is an error. *)
Lemma function_call_duplicate_parameter_counterexample :
  mapM (fun expr => evaluate builtins 3 expr 0)
    [IntegerLiteralExpr 1; IntegerLiteralExpr 2] (parsed [])
  = Normal [JRef 0; JRef 1]
      {| values := [PInteger 1; PInteger 2]; buffers := []; objects := [];
         scopes := [root_scope] |}
  /\ evaluate builtins 3 fn_a_a 0
       {| values := [PInteger 1; PInteger 2]; buffers := []; objects := [];
          scopes := [root_scope] |}
     = Normal (JRef 2)
         {| values := [PInteger 1; PInteger 2; PFunction 0 0 ["a"; "a"] []];
            buffers := []; objects := []; scopes := [root_scope] |}
  /\ invoke_as_specified (evaluate builtins 3) 0 ["a"; "a"] []
       [JRef 0; JRef 1]
       {| values := [PInteger 1; PInteger 2; PFunction 0 0 ["a"; "a"] []];
          buffers := []; objects := []; scopes := [root_scope] |}
     = Normal (JRef 4)
         {| values := [PInteger 1; PInteger 2; PFunction 0 0 ["a"; "a"] [];
                       PNull; PNull];
            buffers := []; objects := [];
            scopes := [root_scope; call_frame 0 ["a"; "a"] [JRef 0; JRef 1]] |}
  /\ (exists message h3,
         evaluate builtins 4
           (CallExpr fn_a_a [IntegerLiteralExpr 1; IntegerLiteralExpr 2]) 0
           (parsed [])
         = Throw (Error message) h3)
  /\ evaluate builtins 4
       (CallExpr fn_a_a [IntegerLiteralExpr 1; IntegerLiteralExpr 2]) 0
       (parsed [])
     <> invoke_as_specified (evaluate builtins 3) 0 ["a"; "a"] []
          [JRef 0; JRef 1]
          {| values := [PInteger 1; PInteger 2; PFunction 0 0 ["a"; "a"] []];
             buffers := []; objects := []; scopes := [root_scope] |}.
Proof.
  repeat apply conj.
  - vm_compute. reflexivity.
  - vm_compute. reflexivity.
  - vm_compute. reflexivity.
  - eexists _, _. vm_compute. reflexivity.
  - vm_compute. discriminate.
Qed.

(** ** Subscript assignments *)


Lemma tag_not_STRING (p : option Payload) :
  tag p <> Some STRING ->
  match p with Some (PString _) => False | _ => True end.
Proof. destruct p as [[]|]; simpl; intros H; try exact I. now apply H. Qed.

Lemma tag_not_INTEGER (p : option Payload) :
  tag p <> Some INTEGER ->
  match p with Some (PInteger _) => False | _ => True end.
Proof. destruct p as [[]|]; simpl; intros H; try exact I. now apply H. Qed.




(** ** String concatenation *)

(** Filling the positions [s .. s+k-1] of an array, one after the other. *)
Lemma fill_positions (f : nat -> Z) (k : nat) :
  forall (s : nat) (u : list Z),
    s + k <= length u ->
    foldl (fun u i => <[i := f i]> u) u (seq s k)
    = take s u ++ map f (seq s k) ++ drop (s + k) u.
Proof.
  induction k as [|k IH]; intros s u Hlen.
  - simpl. rewrite Nat.add_0_r. symmetry. apply firstn_skipn.
  - cbn [seq foldl map]. rewrite IH by (rewrite length_insert; lia).
    rewrite (take_S_r _ _ (f s))
      by (apply list_lookup_insert_eq; lia).
    rewrite take_insert_ge by lia.
    rewrite drop_insert_lt by lia.
    rewrite <- app_assoc. simpl.
    now replace (s + S k) with (S (s + k)) by lia.
Qed.

Lemma map_lookup_seq (l : list Z) :
  map (fun i => default 0%Z (l !! i)) (seq 0 (length l)) = l.
Proof.
  apply list_eq. intros i. change (map ?f ?l) with (f <$> l).
  rewrite list_lookup_fmap.
  destruct (decide (i < length l)) as [Hi|Hi].
  - rewrite lookup_seq_lt by exact Hi. simpl.
    destruct (lookup_lt_is_Some_2 l i Hi) as [x Hx]. now rewrite Hx.
  - rewrite lookup_seq_ge by lia. simpl. symmetry.
    apply lookup_ge_None_2. lia.
Qed.

(** What the two loops of [+] leave in the new array: the bytes of the left
    operand, then, for each byte of the right operand, the byte found in the
    right operand [length l] positions further, or 0 past its end. *)
Lemma concatLoops_bytes (l r : list Z) :
  concatLoops l r
  = l ++ map (fun i => default 0%Z (r !! i)) (seq (length l) (length r)).
Proof.
  unfold concatLoops.
  rewrite (fill_positions (fun i => default 0%Z (l !! i)) (length l) 0)
    by (rewrite length_replicate; lia).
  rewrite take_0, map_lookup_seq. simpl.
  rewrite drop_replicate_add.
  rewrite (fill_positions (fun i => default 0%Z (r !! i)) (length r)
             (length l))
    by (rewrite length_app, length_replicate; lia).
  rewrite take_app_length.
  rewrite drop_ge by (rewrite length_app, length_replicate; lia).
  now rewrite app_nil_r.
Qed.

(** The new array has the summed length and starts with the left operand. *)
Lemma concatLoops_length (l r : list Z) :
  length (concatLoops l r) = length l + length r.
Proof.
  rewrite concatLoops_bytes, length_app, length_map, length_seq.
  reflexivity.
Qed.

(** C1 fails on the code.  ["ab" + "cd"] gives a new String value whose
    buffer holds the bytes of "ab" followed by two zero bytes, not the bytes
    of "cd"; the buffers of the operands are unchanged. *)
Theorem string_concatenation_loses_right_operand :
  evaluate builtins 2
    (BinaryExpr (StringLiteralExpr 0) "+" (StringLiteralExpr 1))
    0 (parsed [[97; 98]; [99; 100]]%Z)
  = Normal (JRef 2)
      {| values := [PString 0; PString 1; PString 2];
         buffers := [[97; 98]; [99; 100]; [97; 98; 0; 0]]%Z;
         objects := []; scopes := [root_scope] |}.
Proof. vm_compute. reflexivity. Qed.

(** ** Unary operators *)









(** ** Subscript reads *)

(** The three outcomes of a subscript read on a String and an Integer: the
    error of the bounds check at or past the end, the byte inside the string,
    and, below 0, the error of the runtime for [BigInt(undefined)]. *)
Lemma evalSubscriptExpr_read ev (left right : Node) scope h lhs h1 rhs h2
    buf i bytes :
  ev left scope h = Normal lhs h1 ->
  ev right scope h1 = Normal rhs h2 ->
  payloadOf lhs h2 = Normal (Some (PString buf)) h2 ->
  payloadOf rhs h2 = Normal (Some (PInteger i)) h2 ->
  buffers h2 !! buf = Some bytes ->
  ((Z.of_nat (length bytes) <= i)%Z ->
   evalSubscriptExpr ev left right scope h
   = Throw (Error "error: attempting to index outside of string range") h2)
  /\
  (forall b,
      (0 <= i)%Z -> bytes !! Z.to_nat i = Some b ->
      evalSubscriptExpr ev left right scope h = IntegerValue b h2)
  /\
  ((i < 0)%Z ->
   evalSubscriptExpr ev left right scope h
   = Throw (TypeError "Cannot convert undefined to a BigInt") h2).
Proof.
  intros El Er Hl Hr Hb. unfold evalSubscriptExpr.
  step_bind El. step_bind Er. step_bind Hl. step_bind Hr.
  assert (Eb : readBuffer buf h2 = Normal bytes h2)
    by (unfold readBuffer; now rewrite Hb).
  step_bind Eb. unfold typedArrayGet. split; [|split].
  - intros Hi. apply Z.leb_le in Hi. now rewrite Hi.
  - intros b Hi Hlook.
    assert (Hlt : (i < Z.of_nat (length bytes))%Z)
      by (apply lookup_lt_Some in Hlook; lia).
    apply Z.leb_gt in Hlt. rewrite Hlt.
    assert (Hneg : (i <? 0)%Z = false) by now apply Z.ltb_ge.
    now rewrite Hneg, Hlook.
  - intros Hi.
    assert (Hlt : (i < Z.of_nat (length bytes))%Z) by lia.
    apply Z.leb_gt in Hlt. rewrite Hlt.
    apply Z.ltb_lt in Hi. now rewrite Hi.
Qed.

(** C4 fails on the code.  ["hi"[-1]] does not fail with the index-out-of-range
    diagnostic of the interpreter: the bounds check has no lower bound, the
    read yields [undefined] and the conversion to an Integer throws the
    TypeError of the runtime. *)
Theorem subscript_read_negative_index :
  evaluate builtins 3
    (SubscriptExpr (StringLiteralExpr 0)
       (UnaryExpr "-" (IntegerLiteralExpr 1)))
    0 (parsed [[104; 105]%Z])
  = Throw (TypeError "Cannot convert undefined to a BigInt")
      {| values := [PString 0; PInteger (-1)]; buffers := [[104; 105]%Z];
         objects := []; scopes := [root_scope] |}.
Proof. vm_compute. reflexivity. Qed.

(** ** Division and modulus *)

(** [/] is guarded for both numeric types. *)
Lemma division_by_zero_guarded (a : Z) (x y : float) h :
  binarySwitch "/" (Some (PInteger a)) (Some (PInteger 0)) h
  = Throw (Error "error: division by zero not allowed") h
  /\ ((y =? 0)%float = true ->
      binarySwitch "/" (Some (PFloat x)) (Some (PFloat y)) h
      = Throw (Error "error: division by zero not allowed") h).
Proof.
  split; [reflexivity|]. intros Hy. unfold binarySwitch. simpl.
  now rewrite Hy.
Qed.

Lemma float_rem_zero (x : float) : float_rem x 0 = nan.
Proof. unfold float_rem. destruct (Prim2SF x); reflexivity. Qed.

(** [%] is not: a Float zero gives NaN and an Integer zero the RangeError of
    the runtime. *)
Lemma modulus_by_zero_unguarded (a : Z) (x : float) h :
  binarySwitch "%" (Some (PInteger a)) (Some (PInteger 0)) h
  = Throw (RangeError "Division by zero") h
  /\ binarySwitch "%" (Some (PFloat x)) (Some (PFloat 0)) h
     = FloatValue nan h.
Proof.
  split; [reflexivity|]. unfold binarySwitch. simpl.
  now rewrite float_rem_zero.
Qed.

(** C5 fails on the code.  [1.0 % 0.0] evaluates to a Float, NaN, instead of
    failing, and [1 % 0] fails with the RangeError of the runtime, not with
    the diagnostic of the interpreter that [/] raises. *)
Theorem modulus_by_zero_is_not_a_diagnostic :
  evaluate builtins 2
    (BinaryExpr (FloatLiteralExpr 1) "%" (FloatLiteralExpr 0)) 0 (parsed [])
  = Normal (JRef 2)
      {| values := [PFloat 1; PFloat 0; PFloat nan]; buffers := [];
         objects := []; scopes := [root_scope] |}
  /\
  evaluate builtins 2
    (BinaryExpr (IntegerLiteralExpr 1) "%" (IntegerLiteralExpr 0)) 0
    (parsed [])
  = Throw (RangeError "Division by zero")
      {| values := [PInteger 1; PInteger 0]; buffers := []; objects := [];
         scopes := [root_scope] |}
  /\
  evaluate builtins 2
    (BinaryExpr (IntegerLiteralExpr 1) "/" (IntegerLiteralExpr 0)) 0
    (parsed [])
  = Throw (Error "error: division by zero not allowed")
      {| values := [PInteger 1; PInteger 0]; buffers := []; objects := [];
         scopes := [root_scope] |}.
Proof. repeat apply conj; vm_compute; reflexivity. Qed.

(** ** Objects *)

(** The three outcomes of a member read [o.k] on an Object: the value stored
    under an own key, the inherited property of [Object.prototype] for a key
    never inserted that names one, and the error for any other key. *)
Lemma evalMemberExpr_read ev (left : Node) k scope h parentVal h1 o m :
  ev left scope h = Normal parentVal h1 ->
  payloadOf parentVal h1 = Normal (Some (PObject o)) h1 ->
  objects h1 !! o = Some m ->
  (forall v, m !! k = Some v ->
             evalMemberExpr ev left (IdentifierExpr k) scope h = Normal v h1)
  /\
  (m !! k = None -> inherited k = true ->
   evalMemberExpr ev left (IdentifierExpr k) scope h = Normal (JHost k) h1)
  /\
  (m !! k = None -> inherited k = false ->
   evalMemberExpr ev left (IdentifierExpr k) scope h
   = Throw
       (Error ("error: field " +:+ k +:+ " is not present on calling object"))
       h1).
Proof.
  intros El Hp Ho. unfold evalMemberExpr. step_bind El. step_bind Hp.
  assert (Eo : readObject o h1 = Normal m h1)
    by (unfold readObject; now rewrite Ho).
  step_bind Eo. unfold objectGet. split; [|split].
  - intros v Hv. now rewrite Hv.
  - intros Hk Hin. now rewrite Hk, Hin.
  - intros Hk Hin. now rewrite Hk, Hin.
Qed.

(** C6 fails on the code.  In [var o = {x: 1}; o.toString;] the key
    [toString] was never inserted into [o], yet the member read does not
    fail: it returns the function the map object inherits from
    [Object.prototype], which is not a runtime value.  A key that is neither
    inserted nor inherited, as in [o.y], does fail. *)
Theorem member_read_returns_inherited_property :
  interpret builtins 3
    [VarStmt "o" (ObjectLiteralExpr [("x", Some (IntegerLiteralExpr 1))]);
     MemberExpr (IdentifierExpr "o") (IdentifierExpr "toString")]
    0 (parsed [])
  = Normal (JHost "toString")
      {| values := [PNull; PInteger 1; PObject 0; PNull]; buffers := [];
         objects := [{["x" := JRef 1]}];
         scopes := [{| parent := None; symbols := {["o" := JRef 2]} |}] |}
  /\
  interpret builtins 3
    [VarStmt "o" (ObjectLiteralExpr [("x", Some (IntegerLiteralExpr 1))]);
     MemberExpr (IdentifierExpr "o") (IdentifierExpr "y")]
    0 (parsed [])
  = Throw (Error "error: field y is not present on calling object")
      {| values := [PNull; PInteger 1; PObject 0; PNull]; buffers := [];
         objects := [{["x" := JRef 1]}];
         scopes := [{| parent := None; symbols := {["o" := JRef 2]} |}] |}.
Proof. split; vm_compute; reflexivity. Qed.

(** ** String literals *)

(** A string literal evaluates to a new value object around the buffer of
    the node: no buffer is allocated. *)
Lemma string_literal_shares_buffer jsfn fuel buf scope h :
  evaluate jsfn (S fuel) (StringLiteralExpr buf) scope h
  = Normal (JRef (length (values h)))
      (set_values h (values h ++ [PString buf])).
Proof. reflexivity. Qed.

(** C7 fails on the code.  In
    [var f = fn () { return "hi"; }; var a = f(); a[0] = 72; f()[0];]
    the literal is evaluated twice; both String values hold the buffer of the
    node, the assignment through the first one changes that buffer, and the
    read through the second one gives 72 instead of 104. *)
Theorem string_literal_buffer_is_shared :
  exists h,
    interpret builtins 5
      [VarStmt "f" (FunctionLiteralExpr 0 [] [ReturnStmt (StringLiteralExpr 0)]);
       VarStmt "a" (CallExpr (IdentifierExpr "f") []);
       ExprStmt
         (AssignmentExpr
            (SubscriptExpr (IdentifierExpr "a") (IntegerLiteralExpr 0)) "="
            (IntegerLiteralExpr 72));
       SubscriptExpr (CallExpr (IdentifierExpr "f") []) (IntegerLiteralExpr 0)]
      0 (parsed [[104; 105]%Z])
    = Normal (JRef 10) h
    /\ values h !! 10 = Some (PInteger 72)
    /\ values h !! 3 = Some (PString 0)
    /\ values h !! 8 = Some (PString 0)
    /\ buffers h = [[72; 105]%Z].
Proof.
  eexists. split; [vm_compute; reflexivity|].
  repeat apply conj; reflexivity.
Qed.

(** ** Binary operators on evaluated operands *)

(** A binary expression is the switch of the operator on what the two
    operand objects hold once both are evaluated. *)
Lemma evaluate_binary jsfn fuel (left right : Node) operator scope h
    lhs h1 rhs h2 lp rp :
  evaluate jsfn fuel left scope h = Normal lhs h1 ->
  evaluate jsfn fuel right scope h1 = Normal rhs h2 ->
  payloadOf lhs h2 = Normal lp h2 ->
  payloadOf rhs h2 = Normal rp h2 ->
  evaluate jsfn (S fuel) (BinaryExpr left operator right) scope h
  = binarySwitch operator lp rp h2.
Proof.
  intros El Er Hl Hr. rewrite evaluate_S. simpl. unfold evalBinaryExpr.
  step_bind El. step_bind Er. step_bind Hl. now step_bind Hr.
Qed.

Lemma ValueType_eqb_eq a b : ValueType_eqb a b = true <-> a = b.
Proof. destruct a, b; simpl; split; congruence. Qed.

Lemma tag_eqb_eq a b : tag_eqb a b = true <-> a = b.
Proof.
  destruct a as [a|], b as [b|]; simpl; try (split; congruence).
  rewrite ValueType_eqb_eq. split; congruence.
Qed.

Lemma tag_eqb_neq a b : a <> b -> tag_eqb a b = false.
Proof.
  intros Hne. destruct (tag_eqb a b) eqn:E; [|reflexivity].
  now apply tag_eqb_eq in E.
Qed.

(** X1.  The operators [<], [>], [+], [-], [*], [/] and [%] convert nothing:
    when the two operand values have different tags (an Integer and a Float,
    a String and an Integer, a runtime value and a host object, ...) the
    expression fails with the operator's same-type error, in the heap the
    operands left: no value is allocated. *)
Theorem operands_of_different_types_fail
    jsfn fuel (left right : Node) operator scope h lhs h1 rhs h2 lp rp :
  operator ∈ typed_operators ->
  evaluate jsfn fuel left scope h = Normal lhs h1 ->
  evaluate jsfn fuel right scope h1 = Normal rhs h2 ->
  payloadOf lhs h2 = Normal lp h2 ->
  payloadOf rhs h2 = Normal rp h2 ->
  tag lp <> tag rp ->
  evaluate jsfn (S fuel) (BinaryExpr left operator right) scope h
  = Throw (Error (mismatch_message operator)) h2.
Proof.
  intros Hop El Er Hl Hr Hne.
  rewrite (evaluate_binary _ _ _ _ _ _ _ _ _ _ _ _ _ El Er Hl Hr).
  apply tag_eqb_neq in Hne.
  unfold typed_operators in Hop.
  repeat (apply elem_of_cons in Hop as [-> | Hop];
          [unfold binarySwitch; simpl; rewrite Hne; reflexivity|]).
  now apply elem_of_nil in Hop.
Qed.

(** [1 + 1.0] *)
Lemma operands_of_different_types_fail_witness :
  evaluate builtins 2
    (BinaryExpr (IntegerLiteralExpr 1) "+" (FloatLiteralExpr 1)) 0 (parsed [])
  = Throw (Error "error: operands for '+' must be of the same time")
      {| values := [PInteger 1; PFloat 1]; buffers := []; objects := [];
         scopes := [root_scope] |}.
Proof.
  apply (operands_of_different_types_fail builtins 1
           (IntegerLiteralExpr 1) (FloatLiteralExpr 1) "+" 0 (parsed [])
           (JRef 0)
           {| values := [PInteger 1]; buffers := []; objects := [];
              scopes := [root_scope] |}
           (JRef 1)
           {| values := [PInteger 1; PFloat 1]; buffers := []; objects := [];
              scopes := [root_scope] |}
           (Some (PInteger 1)) (Some (PFloat 1))).
  - unfold typed_operators. set_solver.
  - reflexivity.
  - reflexivity.
  - reflexivity.
  - reflexivity.
  - simpl. discriminate.
Defined.

(** X2.  [==] and [!=] never fail: they give a new Boolean, [!=] the negation
    of [==].  Two Integers are [==] exactly when they are the same integer;
    an Integer is never [==] to a Float; two Strings are [==] exactly when
    they hold the same buffer, whatever its bytes, and two Objects exactly
    when they hold the same map. *)
Theorem equality_compares_identity
    jsfn fuel (left right : Node) scope h lhs h1 rhs h2 lp rp :
  evaluate jsfn fuel left scope h = Normal lhs h1 ->
  evaluate jsfn fuel right scope h1 = Normal rhs h2 ->
  payloadOf lhs h2 = Normal lp h2 ->
  payloadOf rhs h2 = Normal rp h2 ->
  (exists b,
      evaluate jsfn (S fuel) (BinaryExpr left "==" right) scope h
      = Normal (JRef (length (values h2))) (with_value h2 (PBoolean b))
      /\ evaluate jsfn (S fuel) (BinaryExpr left "!=" right) scope h
         = Normal (JRef (length (values h2)))
             (with_value h2 (PBoolean (negb b)))
      /\ (forall x y, lp = Some (PInteger x) -> rp = Some (PInteger y) ->
                      b = bool_decide (x = y))
      /\ (forall x y, lp = Some (PInteger x) -> rp = Some (PFloat y) ->
                      b = false)
      /\ (forall x y, lp = Some (PFloat x) -> rp = Some (PInteger y) ->
                      b = false)
      /\ (forall x y, lp = Some (PString x) -> rp = Some (PString y) ->
                      b = bool_decide (x = y))
      /\ (forall x y, lp = Some (PObject x) -> rp = Some (PObject y) ->
                      b = bool_decide (x = y))).
Proof.
  intros El Er Hl Hr. exists (strictEquals lp rp).
  rewrite !(evaluate_binary _ _ _ _ _ _ _ _ _ _ _ _ _ El Er Hl Hr).
  unfold binarySwitch. simpl. repeat apply conj.
  - now destruct (strictEquals lp rp).
  - now destruct (strictEquals lp rp).
  - intros x y -> ->. simpl. apply eq_true_iff_eq.
    rewrite Z.eqb_eq, bool_decide_eq_true. reflexivity.
  - now intros x y -> ->.
  - now intros x y -> ->.
  - intros x y -> ->. simpl. apply eq_true_iff_eq.
    rewrite Nat.eqb_eq, bool_decide_eq_true. reflexivity.
  - intros x y -> ->. simpl. apply eq_true_iff_eq.
    rewrite Nat.eqb_eq, bool_decide_eq_true. reflexivity.
Qed.

(** ["ab" == "ab"], from two literals with equal bytes, is false. *)
Lemma equality_compares_identity_witness :
  evaluate builtins 2
    (BinaryExpr (StringLiteralExpr 0) "==" (StringLiteralExpr 1)) 0
    (parsed [[97; 98]; [97; 98]]%Z)
  = Normal (JRef 2)
      {| values := [PString 0; PString 1; PBoolean false];
         buffers := [[97; 98]; [97; 98]]%Z; objects := [];
         scopes := [root_scope] |}.
Proof.
  destruct (equality_compares_identity builtins 1
              (StringLiteralExpr 0) (StringLiteralExpr 1) 0
              (parsed [[97; 98]; [97; 98]]%Z)
              (JRef 0)
              {| values := [PString 0]; buffers := [[97; 98]; [97; 98]]%Z;
                 objects := []; scopes := [root_scope] |}
              (JRef 1)
              {| values := [PString 0; PString 1];
                 buffers := [[97; 98]; [97; 98]]%Z;
                 objects := []; scopes := [root_scope] |}
              (Some (PString 0)) (Some (PString 1))
              eq_refl eq_refl eq_refl eq_refl)
    as (b & Heq & Hne & Hint & Hif & Hfi & Hstr & Hobj).
  rewrite Heq, (Hstr 0 1 eq_refl eq_refl). reflexivity.
Defined.

(** X3.  On two Integers with a divisor other than 0, [/] is the quotient
    truncated toward zero and [%] the remainder that goes with it: dividend =
    divisor * quotient + remainder, the remainder is smaller than the divisor
    in magnitude and is 0 or has the sign of the dividend.  Both results are
    new Integer values of arbitrary size. *)
Theorem integer_division_and_modulus
    jsfn fuel (left right : Node) scope h lhs h1 rhs h2 (a b : Z) :
  evaluate jsfn fuel left scope h = Normal lhs h1 ->
  evaluate jsfn fuel right scope h1 = Normal rhs h2 ->
  payloadOf lhs h2 = Normal (Some (PInteger a)) h2 ->
  payloadOf rhs h2 = Normal (Some (PInteger b)) h2 ->
  b <> 0%Z ->
  exists q r,
    evaluate jsfn (S fuel) (BinaryExpr left "/" right) scope h
    = Normal (JRef (length (values h2))) (with_value h2 (PInteger q))
    /\ evaluate jsfn (S fuel) (BinaryExpr left "%" right) scope h
       = Normal (JRef (length (values h2))) (with_value h2 (PInteger r))
    /\ (a = b * q + r)%Z
    /\ (Z.abs r < Z.abs b)%Z
    /\ (0 <= r * a)%Z.
Proof.
  intros El Er Hl Hr Hb. exists (Z.quot a b), (Z.rem a b).
  rewrite !(evaluate_binary _ _ _ _ _ _ _ _ _ _ _ _ _ El Er Hl Hr).
  unfold binarySwitch. simpl.
  apply Z.eqb_neq in Hb as Hb'. rewrite Hb'.
  repeat apply conj; try reflexivity.
  - apply Z.quot_rem'.
  - now apply Z.rem_bound_abs.
  - now apply Z.rem_sign_mul.
Qed.

(** [-7 / 2] and [-7 % 2] *)
Lemma integer_division_and_modulus_witness :
  exists q r,
    evaluate builtins 2
      (BinaryExpr (IntegerLiteralExpr (-7)) "/" (IntegerLiteralExpr 2)) 0
      (parsed [])
    = Normal (JRef 2)
        {| values := [PInteger (-7); PInteger 2; PInteger q]; buffers := [];
           objects := []; scopes := [root_scope] |}
    /\
    evaluate builtins 2
      (BinaryExpr (IntegerLiteralExpr (-7)) "%" (IntegerLiteralExpr 2)) 0
      (parsed [])
    = Normal (JRef 2)
        {| values := [PInteger (-7); PInteger 2; PInteger r]; buffers := [];
           objects := []; scopes := [root_scope] |}
    /\ (-7 = 2 * q + r)%Z
    /\ (Z.abs r < Z.abs 2)%Z
    /\ (0 <= r * -7)%Z.
Proof.
  exact (integer_division_and_modulus builtins 1
           (IntegerLiteralExpr (-7)) (IntegerLiteralExpr 2) 0 (parsed [])
           (JRef 0)
           {| values := [PInteger (-7)]; buffers := []; objects := [];
              scopes := [root_scope] |}
           (JRef 1)
           {| values := [PInteger (-7); PInteger 2]; buffers := [];
              objects := []; scopes := [root_scope] |}
           (-7)%Z 2%Z eq_refl eq_refl eq_refl eq_refl
           ltac:(discriminate)).
Defined.

(** X4.  [<] and [>] order two Integers or two Floats only.  On two Integers
    [x < y] and [y > x] give the same new Boolean, the order of the
    integers; on two Floats they give the same new Boolean, the IEEE 754
    comparison [x < y] of the doubles; on two other values of one type (two
    Strings, two Booleans, two Nulls, two Objects, two functions, two host
    objects) both fail with the operator's int-or-float error. *)
Theorem ordering_needs_two_numbers
    jsfn fuel (left right : Node) scope h lhs h1 rhs h2 lp rp :
  evaluate jsfn fuel left scope h = Normal lhs h1 ->
  evaluate jsfn fuel right scope h1 = Normal rhs h2 ->
  payloadOf lhs h2 = Normal lp h2 ->
  payloadOf rhs h2 = Normal rp h2 ->
  (forall x y,
      lp = Some (PInteger x) -> rp = Some (PInteger y) ->
      evaluate jsfn (S fuel) (BinaryExpr left "<" right) scope h
      = Normal (JRef (length (values h2)))
          (with_value h2 (PBoolean (bool_decide (x < y)%Z)))
      /\ evaluate jsfn (S fuel) (BinaryExpr left ">" right) scope h
         = Normal (JRef (length (values h2)))
             (with_value h2 (PBoolean (bool_decide (y < x)%Z))))
  /\
  (forall x y,
      lp = Some (PFloat x) -> rp = Some (PFloat y) ->
      evaluate jsfn (S fuel) (BinaryExpr left "<" right) scope h
      = Normal (JRef (length (values h2)))
          (with_value h2 (PBoolean (x <? y)%float))
      /\ evaluate jsfn (S fuel) (BinaryExpr left ">" right) scope h
         = Normal (JRef (length (values h2)))
             (with_value h2 (PBoolean (y <? x)%float)))
  /\
  (tag lp = tag rp ->
   tag lp <> Some INTEGER -> tag lp <> Some FLOAT ->
   evaluate jsfn (S fuel) (BinaryExpr left "<" right) scope h
   = Throw (Error (ordering_message "<")) h2
   /\ evaluate jsfn (S fuel) (BinaryExpr left ">" right) scope h
      = Throw (Error (ordering_message ">")) h2).
Proof.
  intros El Er Hl Hr.
  rewrite !(evaluate_binary _ _ _ _ _ _ _ _ _ _ _ _ _ El Er Hl Hr).
  unfold binarySwitch. simpl. split; [|split].
  - intros x y -> ->. simpl.
    replace (bool_decide (x < y)%Z) with (x <? y)%Z
      by (apply eq_true_iff_eq;
          now rewrite Z.ltb_lt, bool_decide_eq_true).
    replace (bool_decide (y < x)%Z) with (y <? x)%Z
      by (apply eq_true_iff_eq;
          now rewrite Z.ltb_lt, bool_decide_eq_true).
    now split.
  - intros x y -> ->. simpl. now split.
  - intros Hsame Hi Hf. apply tag_eqb_eq in Hsame as Hs. rewrite Hs. simpl.
    destruct lp as [[]|], rp as [[]|]; simpl in *;
      try discriminate Hsame; try (now split);
      first [now destruct Hi | now destruct Hf].
Qed.

(** ["a" < "b"] *)
Lemma ordering_needs_two_numbers_witness :
  evaluate builtins 2
    (BinaryExpr (StringLiteralExpr 0) "<" (StringLiteralExpr 1)) 0
    (parsed [[97]; [98]]%Z)
  = Throw (Error "error: operands for '<' must be of type int or float")
      {| values := [PString 0; PString 1]; buffers := [[97]; [98]]%Z;
         objects := []; scopes := [root_scope] |}.
Proof.
  apply (proj2 (proj2 (ordering_needs_two_numbers builtins 1
           (StringLiteralExpr 0) (StringLiteralExpr 1) 0
           (parsed [[97]; [98]]%Z)
           (JRef 0)
           {| values := [PString 0]; buffers := [[97]; [98]]%Z;
              objects := []; scopes := [root_scope] |}
           (JRef 1)
           {| values := [PString 0; PString 1]; buffers := [[97]; [98]]%Z;
              objects := []; scopes := [root_scope] |}
           (Some (PString 0)) (Some (PString 1))
           eq_refl eq_refl eq_refl eq_refl))).
  - reflexivity.
  - discriminate.
  - discriminate.
Defined.

(** ** Unary operators *)

(** A unary expression on an operand that evaluates to a value object. *)
Lemma evaluate_unary jsfn fuel operator (expr : Node) scope h rhs h1 rp :
  evaluate jsfn fuel expr scope h = Normal rhs h1 ->
  payloadOf rhs h1 = Normal rp h1 ->
  evaluate jsfn (S fuel) (UnaryExpr operator expr) scope h
  = (if String.eqb operator "!" then
       match rhs, rp with
       | JRef l, Some (PBoolean b) =>
           Normal rhs (set_values h1 (<[l := PBoolean (negb b)]> (values h1)))
       | _, _ =>
           Throw
             (Error
                "error: unary operator '!' only allowed for boolean values")
             h1
       end
     else if String.eqb operator "-" then
       match rhs, rp with
       | JRef l, Some (PFloat x) =>
           Normal rhs
             (set_values h1 (<[l := PFloat (x * -1)%float]> (values h1)))
       | JRef l, Some (PInteger x) =>
           Normal rhs
             (set_values h1 (<[l := PInteger (x * -1)%Z]> (values h1)))
       | _, _ =>
           Throw
             (Error
                "error: unary operator '-' only allowed for float or int values")
             h1
       end
     else
       Throw
         (Error
            ("error: unable to evaluate '" +:+ operator
             +:+ "' as unary operator expression"))
         h1).
Proof.
  intros Ee Hp. rewrite evaluate_S. simpl. unfold evalUnaryExpr.
  step_bind Ee. step_bind Hp.
  destruct (String.eqb operator "!"); [|destruct (String.eqb operator "-")];
    try reflexivity;
    destruct rhs as [l|k], rp as [[]|]; reflexivity.
Qed.

(** X5.  Negating twice restores the operand: for an expression that
    evaluates to a Boolean, [!!e] returns the very object [e] evaluated to,
    holding its Boolean again, and leaves the heap as the evaluation of [e]
    left it; the same holds for [-(-e)] on an Integer. *)
Theorem double_negation_restores_the_operand
    jsfn fuel (expr : Node) scope h l h1 :
  evaluate jsfn fuel expr scope h = Normal (JRef l) h1 ->
  (forall b,
      values h1 !! l = Some (PBoolean b) ->
      evaluate jsfn (S (S fuel)) (UnaryExpr "!" (UnaryExpr "!" expr)) scope h
      = Normal (JRef l) h1)
  /\
  (forall x,
      values h1 !! l = Some (PInteger x) ->
      evaluate jsfn (S (S fuel)) (UnaryExpr "-" (UnaryExpr "-" expr)) scope h
      = Normal (JRef l) h1).
Proof.
  intros Ee. split.
  - intros b Hl.
    assert (E1 : evaluate jsfn (S fuel) (UnaryExpr "!" expr) scope h
                 = Normal (JRef l)
                     (set_values h1
                        (<[l := PBoolean (negb b)]> (values h1))))
      by (now rewrite (evaluate_unary jsfn fuel "!" expr scope h (JRef l) h1
                         _ Ee (payloadOf_JRef _ _ _ Hl))).
    assert (Hl2 : values
                    (set_values h1 (<[l := PBoolean (negb b)]> (values h1)))
                  !! l = Some (PBoolean (negb b))).
    { simpl. apply list_lookup_insert_eq. now apply lookup_lt_Some in Hl. }
    rewrite (evaluate_unary jsfn (S fuel) "!" _ scope h (JRef l) _ _ E1
               (payloadOf_JRef _ _ _ Hl2)).
    unfold set_values. simpl.
    rewrite list_insert_insert_eq, negb_involutive.
    rewrite list_insert_id by exact Hl. now destruct h1.
  - intros x Hl.
    assert (E1 : evaluate jsfn (S fuel) (UnaryExpr "-" expr) scope h
                 = Normal (JRef l)
                     (set_values h1
                        (<[l := PInteger (x * -1)]> (values h1))))
      by (now rewrite (evaluate_unary jsfn fuel "-" expr scope h (JRef l) h1
                         _ Ee (payloadOf_JRef _ _ _ Hl))).
    assert (Hl2 : values
                    (set_values h1 (<[l := PInteger (x * -1)]> (values h1)))
                  !! l = Some (PInteger (x * -1))).
    { simpl. apply list_lookup_insert_eq. now apply lookup_lt_Some in Hl. }
    rewrite (evaluate_unary jsfn (S fuel) "-" _ scope h (JRef l) _ _ E1
               (payloadOf_JRef _ _ _ Hl2)).
    unfold set_values. simpl. rewrite list_insert_insert_eq.
    replace (x * -1 * -1)%Z with x by lia.
    rewrite list_insert_id by exact Hl. now destruct h1.
Qed.

(** [-(-5)] *)
Lemma double_negation_restores_the_operand_witness :
  evaluate builtins 3
    (UnaryExpr "-" (UnaryExpr "-" (IntegerLiteralExpr 5))) 0 (parsed [])
  = Normal (JRef 0)
      {| values := [PInteger 5]; buffers := []; objects := [];
         scopes := [root_scope] |}.
Proof.
  apply (proj2 (double_negation_restores_the_operand builtins 1
                  (IntegerLiteralExpr 5) 0 (parsed []) 0
                  {| values := [PInteger 5]; buffers := []; objects := [];
                     scopes := [root_scope] |}
                  eq_refl) 5%Z).
  reflexivity.
Defined.

(** X6.  The unary operators convert nothing either: [!] on a value that is
    not a Boolean and [-] on a value that is neither an Integer nor a Float
    fail with the operator's error, and any other operator fails with the
    error that names it; the operand is evaluated first and is left as it
    was. *)
Theorem unary_operators_reject_other_types
    jsfn fuel operator (expr : Node) scope h rhs h1 rp :
  evaluate jsfn fuel expr scope h = Normal rhs h1 ->
  payloadOf rhs h1 = Normal rp h1 ->
  (tag rp <> Some BOOLEAN ->
   evaluate jsfn (S fuel) (UnaryExpr "!" expr) scope h
   = Throw (Error "error: unary operator '!' only allowed for boolean values")
       h1)
  /\
  (tag rp <> Some INTEGER -> tag rp <> Some FLOAT ->
   evaluate jsfn (S fuel) (UnaryExpr "-" expr) scope h
   = Throw
       (Error "error: unary operator '-' only allowed for float or int values")
       h1)
  /\
  (operator <> "!" -> operator <> "-" ->
   evaluate jsfn (S fuel) (UnaryExpr operator expr) scope h
   = Throw
       (Error
          ("error: unable to evaluate '" +:+ operator
           +:+ "' as unary operator expression"))
       h1).
Proof.
  intros Ee Hp. rewrite !(evaluate_unary _ _ _ _ _ _ _ _ _ Ee Hp).
  split; [|split].
  - intros Hb. simpl. destruct rhs as [l|k], rp as [[]|]; try reflexivity.
    now destruct Hb.
  - intros Hi Hf. simpl. destruct rhs as [l|k], rp as [[]|]; try reflexivity;
      first [now destruct Hi | now destruct Hf].
  - intros Hn Hm. apply String.eqb_neq in Hn, Hm. now rewrite Hn, Hm.
Qed.

(** [-"a"] *)
Lemma unary_operators_reject_other_types_witness :
  evaluate builtins 2 (UnaryExpr "-" (StringLiteralExpr 0)) 0
    (parsed [[97]%Z])
  = Throw
      (Error "error: unary operator '-' only allowed for float or int values")
      {| values := [PString 0]; buffers := [[97]%Z]; objects := [];
         scopes := [root_scope] |}.
Proof.
  apply (proj1 (proj2 (unary_operators_reject_other_types builtins 1 "-"
                         (StringLiteralExpr 0) 0 (parsed [[97]%Z]) (JRef 0)
                         {| values := [PString 0]; buffers := [[97]%Z];
                            objects := []; scopes := [root_scope] |}
                         (Some (PString 0)) eq_refl eq_refl))).
  - discriminate.
  - discriminate.
Defined.

(** ** Assignments *)

(** X7.  An assignment whose assignee is not an identifier, a member
    expression or a subscript expression fails with the assignee error, and
    an assignment with an operator other than [=] fails with the error that
    names the operator; in both cases nothing is evaluated and the heap is
    untouched. *)
Theorem assignment_rejects_other_targets
    jsfn fuel (assignee value : Node) operator scope h :
  (is_assignable assignee = false ->
   evaluate jsfn (S fuel) (AssignmentExpr assignee "=" value) scope h
   = Throw (Error "error: assignee must be an identifier or object property")
       h)
  /\
  (operator <> "=" ->
   evaluate jsfn (S fuel) (AssignmentExpr assignee operator value) scope h
   = Throw
       (Error
          ("error: unable to evaluate '" +:+ operator
           +:+ "' as assignment expression"))
       h).
Proof.
  rewrite !evaluate_S. unfold evaluateNode, evalAssignmentExpr. split.
  - intros Ha. change ("=" =? "=")%string with true. cbv iota.
    destruct assignee; try discriminate Ha; reflexivity.
  - intros Hop. apply String.eqb_neq in Hop. now rewrite Hop.
Qed.

(** [1 = 2] *)
Lemma assignment_rejects_other_targets_witness :
  evaluate builtins 1
    (AssignmentExpr (IntegerLiteralExpr 1) "=" (IntegerLiteralExpr 2)) 0
    (parsed [])
  = Throw (Error "error: assignee must be an identifier or object property")
      (parsed []).
Proof.
  apply (proj1 (assignment_rejects_other_targets builtins 0
                  (IntegerLiteralExpr 1) (IntegerLiteralExpr 2) "=" 0
                  (parsed []))).
  reflexivity.
Defined.

(** X8.  A member assignment [a.k = v], for a key other than [__proto__],
    stores the value object of [v] under [k] in the map of the Object,
    whether or not the key was there, and returns that value object.  A
    member read of [k] that follows, through any expression that evaluates to
    an Object holding the same map and whose evaluation leaves that map as
    the assignment left it, returns that value object, in the heap its left
    side left.  The other keys of the map are as they were. *)
Theorem member_assignment_then_read
    jsfn fuel (left value : Node) k scope h parentVal h1 o v h2 m :
  k <> "__proto__" ->
  evaluate jsfn fuel left scope h = Normal parentVal h1 ->
  payloadOf parentVal h1 = Normal (Some (PObject o)) h1 ->
  evaluate jsfn fuel value scope h1 = Normal v h2 ->
  objects h2 !! o = Some m ->
  let h3 := set_objects h2 (<[o := <[k := v]> m]> (objects h2)) in
  evaluate jsfn (S fuel)
    (AssignmentExpr (MemberExpr left (IdentifierExpr k)) "=" value) scope h
  = Normal v h3
  /\ (forall fuel' (left' : Node) scope' alias h4,
         evaluate jsfn fuel' left' scope' h3 = Normal alias h4 ->
         payloadOf alias h4 = Normal (Some (PObject o)) h4 ->
         objects h4 !! o = objects h3 !! o ->
         evaluate jsfn (S fuel') (MemberExpr left' (IdentifierExpr k)) scope'
           h3
         = Normal v h4)
  /\ (forall k', k' <> k ->
                 objects h3 !! o ≫= (fun m' => m' !! k') = m !! k').
Proof.
  intros Hk El Hp Ev Ho h3. repeat apply conj.
  - rewrite evaluate_S. unfold evaluateNode, evalAssignmentExpr.
    change ("=" =? "=")%string with true. cbv iota.
    step_bind El. step_bind Hp. step_bind Ev.
    unfold objectSet. apply String.eqb_neq in Hk. rewrite Hk.
    assert (Eo : readObject o h2 = Normal m h2)
      by (unfold readObject; now rewrite Ho).
    unfold bind at 1. unfold bind at 1. now rewrite Eo.
  - intros fuel' left' scope' alias h4 El' Hp' Hsame.
    assert (Ho4 : objects h4 !! o = Some (<[k := v]> m)).
    { rewrite Hsame. subst h3. simpl. apply list_lookup_insert_eq.
      now apply lookup_lt_Some in Ho. }
    destruct (evalMemberExpr_read (evaluate jsfn fuel') left' k scope' h3
                alias h4 o _ El' Hp' Ho4) as [Hown _].
    rewrite evaluate_S. apply Hown. apply lookup_insert_eq.
  - intros k' Hne. subst h3. simpl.
    rewrite list_lookup_insert_eq by now apply lookup_lt_Some in Ho.
    simpl. now apply lookup_insert_ne.
Qed.

(** [var o = {}; o.toString = 1;]: the key is created, shadowing the
    inherited property. *)
Lemma member_assignment_then_read_witness :
  evaluate builtins 2
    (AssignmentExpr (MemberExpr (IdentifierExpr "o") (IdentifierExpr "toString"))
       "=" (IntegerLiteralExpr 1))
    0
    {| values := [PObject 0]; buffers := []; objects := [∅];
       scopes := [{| parent := None; symbols := {["o" := JRef 0]} |}] |}
  = Normal (JRef 1)
      {| values := [PObject 0; PInteger 1]; buffers := [];
         objects := [{["toString" := JRef 1]}];
         scopes := [{| parent := None; symbols := {["o" := JRef 0]} |}] |}.
Proof.
  pose proof (member_assignment_then_read builtins 1
    (IdentifierExpr "o") (IntegerLiteralExpr 1) "toString" 0
    {| values := [PObject 0]; buffers := []; objects := [∅];
       scopes := [{| parent := None; symbols := {["o" := JRef 0]} |}] |}
    (JRef 0)
    {| values := [PObject 0]; buffers := []; objects := [∅];
       scopes := [{| parent := None; symbols := {["o" := JRef 0]} |}] |}
    0 (JRef 1)
    {| values := [PObject 0; PInteger 1]; buffers := []; objects := [∅];
       scopes := [{| parent := None; symbols := {["o" := JRef 0]} |}] |}
    ∅
    ltac:(discriminate) ltac:(vm_compute; reflexivity) eq_refl eq_refl
    eq_refl) as H.
  apply proj1 in H. rewrite H. vm_compute. reflexivity.
Defined.

(** ** Statements *)

Lemma forM__app {A B} (f : A -> M B) (xs ys : list A) h :
  forM_ f (xs ++ ys) h
  = match forM_ f xs h with
    | Normal _ h1 => forM_ f ys h1
    | Throw e h1 => Throw e h1
    | OutOfFuel => OutOfFuel
    | OutsideModel => OutsideModel
    end.
Proof.
  revert h. induction xs as [|x xs IH]; intros h; [reflexivity|].
  simpl. unfold bind. destruct (f x h); try reflexivity. apply IH.
Qed.

(** X9.  A block runs its statements in order in a new child frame of the
    current scope, and an exception ends it: when the statements before some
    statement return and that statement throws (an error, or the Return of a
    [return] statement), the block throws the same exception in the same heap
    and the statements after it are not evaluated.  When every statement
    returns, the block gives a new Null, whatever its statements gave. *)
Theorem block_ends_at_the_first_exception
    jsfn fuel (pre post : list Node) scope h h1 :
  forM_ (fun s => evaluate jsfn fuel s (length (scopes h))) pre
    (set_scopes h (scopes h ++ [{| parent := Some scope; symbols := ∅ |}]))
  = Normal tt h1 ->
  (forall stmt e h2,
      evaluate jsfn fuel stmt (length (scopes h)) h1 = Throw e h2 ->
      evaluate jsfn (S fuel) (BlockStmt (pre ++ stmt :: post)) scope h
      = Throw e h2)
  /\ evaluate jsfn (S fuel) (BlockStmt pre) scope h
     = Normal (JRef (length (values h1))) (with_value h1 PNull).
Proof.
  intros Hpre. split.
  - intros stmt e h2 Hs.
    rewrite evaluate_S. simpl. unfold Scope, evalBlockStmt.
    unfold bind at 1. unfold bind at 1.
    rewrite forM__app, Hpre. simpl. unfold bind at 1. now rewrite Hs.
  - rewrite evaluate_S. simpl. unfold Scope, evalBlockStmt.
    unfold bind at 1. unfold bind at 1. now rewrite Hpre.
Qed.

(** [{ 1; return 2; 1 / 0; }]: the division is not reached. *)
Lemma block_ends_at_the_first_exception_witness :
  evaluate builtins 3
    (BlockStmt
       [ExprStmt (IntegerLiteralExpr 1); ReturnStmt (IntegerLiteralExpr 2);
        ExprStmt one_over_zero])
    0 (parsed [])
  = Throw (Return (JRef 2))
      {| values := [PInteger 1; PNull; PInteger 2]; buffers := [];
         objects := [];
         scopes := [root_scope; {| parent := Some 0; symbols := ∅ |}] |}.
Proof.
  apply (proj1 (block_ends_at_the_first_exception builtins 2
                  [ExprStmt (IntegerLiteralExpr 1)] [ExprStmt one_over_zero]
                  0 (parsed [])
                  {| values := [PInteger 1; PNull]; buffers := [];
                     objects := [];
                     scopes := [root_scope;
                                {| parent := Some 0; symbols := ∅ |}] |}
                  ltac:(vm_compute; reflexivity))
           (ReturnStmt (IntegerLiteralExpr 2))).
  vm_compute. reflexivity.
Defined.

(** The guards that evaluate to [false] are passed over. *)
Lemma evalIfStmt_skip ev (skipped rest : list (Node * list Node)) dflt scope :
  forall h h1,
    guards_false ev skipped scope h h1 ->
    evalIfStmt ev (skipped ++ rest) dflt scope h
    = evalIfStmt ev rest dflt scope h1.
Proof.
  induction skipped as [|[condition block] skipped IH]; intros h h1 Hg.
  - simpl in Hg. now subst h1.
  - destruct Hg as (rv & h' & Ec & Hp & Hg). simpl.
    step_bind Ec. step_bind Hp. now apply IH.
Qed.

(** X10.  An [if] statement evaluates its guards in order until one is
    [true]: with the guards before it [false], a guard that evaluates to
    [true] selects its block, which runs in a new child frame of the current
    scope, and neither the later guards nor the [else] block are evaluated;
    a guard that evaluates to something else than a Boolean is an error.
    With every guard [false], the [else] block runs in a new child frame, or
    nothing does when there is none.  The statement gives a new Null. *)
Theorem if_takes_the_first_true_guard
    jsfn fuel (skipped rest : list (Node * list Node)) dflt scope h h1 :
  guards_false (evaluate jsfn fuel) skipped scope h h1 ->
  (forall condition block rv h2 p,
      evaluate jsfn fuel condition scope h1 = Normal rv h2 ->
      payloadOf rv h2 = Normal p h2 ->
      (p = Some (PBoolean true) ->
       evaluate jsfn (S fuel)
         (IfStmt (skipped ++ (condition, block) :: rest) dflt) scope h
       = take_branch (evaluate jsfn fuel) block scope h2)
      /\
      (tag p <> Some BOOLEAN ->
       evaluate jsfn (S fuel)
         (IfStmt (skipped ++ (condition, block) :: rest) dflt) scope h
       = Throw (Error "error: if condition must be a boolean expression") h2))
  /\
  (forall block,
      evaluate jsfn (S fuel) (IfStmt skipped (Some block)) scope h
      = take_branch (evaluate jsfn fuel) block scope h1)
  /\
  evaluate jsfn (S fuel) (IfStmt skipped None) scope h
  = Normal (JRef (length (values h1))) (with_value h1 PNull)
  /\
  (forall block r h2,
      evalBlockStmt (evaluate jsfn fuel) block (length (scopes h1))
        (set_scopes h1
           (scopes h1 ++ [{| parent := Some scope; symbols := ∅ |}]))
      = Normal r h2 ->
      take_branch (evaluate jsfn fuel) block scope h1
      = Normal (JRef (length (values h2))) (with_value h2 PNull)).
Proof.
  intros Hg. repeat apply conj.
  - intros condition block rv h2 p Ec Hp.
    assert (E : evaluate jsfn (S fuel)
                  (IfStmt (skipped ++ (condition, block) :: rest) dflt) scope
                  h
                = (let* p := payloadOf rv in
                   match p with
                   | Some (PBoolean b) =>
                       if b then take_branch (evaluate jsfn fuel) block scope
                       else evalIfStmt (evaluate jsfn fuel) rest dflt scope
                   | _ =>
                       throw
                         (Error
                            "error: if condition must be a boolean expression")
                   end) h2).
    { rewrite evaluate_S. unfold evaluateNode.
      rewrite (evalIfStmt_skip (evaluate jsfn fuel) skipped
                 ((condition, block) :: rest) dflt scope h h1 Hg).
      simpl. now step_bind Ec. }
    rewrite E. step_bind Hp. split.
    + now intros ->.
    + intros Hn. apply tag_not_BOOLEAN in Hn.
      destruct p as [[]|]; try reflexivity; contradiction.
  - intros block. rewrite evaluate_S. unfold evaluateNode.
    rewrite <- (app_nil_r skipped) at 1.
    now rewrite (evalIfStmt_skip _ _ _ _ _ _ _ Hg).
  - rewrite evaluate_S. unfold evaluateNode.
    rewrite <- (app_nil_r skipped) at 1.
    now rewrite (evalIfStmt_skip _ _ _ _ _ _ _ Hg).
  - intros block r h2 Hb. unfold take_branch, Scope.
    unfold bind at 1. now step_bind Hb.
Qed.

(** [if false { 1 / 0; } elif true { } else { 1 / 0; }] *)
Lemma if_takes_the_first_true_guard_witness :
  evaluate builtins 3
    (IfStmt
       [(BooleanLiteralExpr false, [ExprStmt one_over_zero]);
        (BooleanLiteralExpr true, [])]
       (Some [ExprStmt one_over_zero]))
    0 (parsed [])
  = Normal (JRef 3)
      {| values := [PBoolean false; PBoolean true; PNull; PNull];
         buffers := []; objects := [];
         scopes := [root_scope; {| parent := Some 0; symbols := ∅ |}] |}.
Proof.
  pose proof (if_takes_the_first_true_guard builtins 2
    [(BooleanLiteralExpr false, [ExprStmt one_over_zero])] []
    (Some [ExprStmt one_over_zero]) 0 (parsed [])
    {| values := [PBoolean false]; buffers := []; objects := [];
       scopes := [root_scope] |}) as H.
  assert (Hg : guards_false (evaluate builtins 2)
                 [(BooleanLiteralExpr false, [ExprStmt one_over_zero])] 0
                 (parsed [])
                 {| values := [PBoolean false]; buffers := []; objects := [];
                    scopes := [root_scope] |}).
  { simpl. eexists _, _. repeat split. }
  specialize (H Hg). apply proj1 in H.
  specialize (H (BooleanLiteralExpr true) [] (JRef 1)
    {| values := [PBoolean false; PBoolean true]; buffers := [];
       objects := []; scopes := [root_scope] |}
    (Some (PBoolean true)) eq_refl eq_refl).
  apply proj1 in H.
  etransitivity; [exact (H eq_refl)|]. vm_compute. reflexivity.
Defined.

(** ** Calls of values that are not functions *)

(** X11.  A call whose callee evaluates to a value that is neither a
    Function nor a host function fails with the not-callable error, after the
    arguments and the callee were evaluated; this holds for a host object as
    well, so the inherited [toString] of an Object cannot be called. *)
Theorem calling_a_non_function_fails
    jsfn fuel (caller : Node) (args : list Node) scope h vs h1 fn h2 fp :
  mapM (fun expr => evaluate jsfn fuel expr scope) args h = Normal vs h1 ->
  evaluate jsfn fuel caller scope h1 = Normal fn h2 ->
  payloadOf fn h2 = Normal fp h2 ->
  tag fp <> Some FUNCTION -> tag fp <> Some JS_FN ->
  evaluate jsfn (S fuel) (CallExpr caller args) scope h
  = Throw (Error "error: non function types are not callable") h2.
Proof.
  intros Ea Ec Hp Hf Hj.
  rewrite (call_reaches_invoke _ _ _ _ _ _ _ _ _ _ Ea Ec).
  unfold invoke. step_bind Hp.
  destruct fp as [[]|]; try reflexivity.
  - now destruct Hf.
  - now destruct Hj.
Qed.

(** [o.toString()] for an Object [o]. *)
Lemma calling_a_non_function_fails_witness :
  evaluate builtins 3
    (CallExpr (MemberExpr (IdentifierExpr "o") (IdentifierExpr "toString")) [])
    0
    {| values := [PObject 0]; buffers := []; objects := [∅];
       scopes := [{| parent := None; symbols := {["o" := JRef 0]} |}] |}
  = Throw (Error "error: non function types are not callable")
      {| values := [PObject 0]; buffers := []; objects := [∅];
         scopes := [{| parent := None; symbols := {["o" := JRef 0]} |}] |}.
Proof.
  apply (calling_a_non_function_fails builtins 2
           (MemberExpr (IdentifierExpr "o") (IdentifierExpr "toString")) []
           0
           {| values := [PObject 0]; buffers := []; objects := [∅];
              scopes := [{| parent := None; symbols := {["o" := JRef 0]} |}] |}
           []
           {| values := [PObject 0]; buffers := []; objects := [∅];
              scopes := [{| parent := None; symbols := {["o" := JRef 0]} |}] |}
           (JHost "toString")
           {| values := [PObject 0]; buffers := []; objects := [∅];
              scopes := [{| parent := None; symbols := {["o" := JRef 0]} |}] |}
           None).
  - reflexivity.
  - vm_compute. reflexivity.
  - reflexivity.
  - discriminate.
  - discriminate.
Defined.

(** ** What a run keeps *)

Lemma grows_interpretLoop jsfn fuel (stmts : list Node) scope :
  host_grows jsfn ->
  forall lastEval h,
    grows (interpretLoop (evaluate jsfn fuel) stmts scope lastEval) h.
Proof.
  intros Hhost. induction stmts as [|stmt rest IH]; intros lastEval h; simpl.
  - apply grows_ret.
  - apply grows_bind; [now apply grows_evaluate|]. intros v h1 _. apply IH.
Qed.

Lemma grows_interpret jsfn fuel (stmts : list Node) scope h :
  host_grows jsfn -> grows (interpret jsfn fuel stmts scope) h.
Proof.
  intros Hhost. unfold interpret. apply grows_bind; [apply grows_alloc|].
  intros v h1 _. now apply grows_interpretLoop.
Qed.

Lemma same_kind_tagOf p q : same_kind p q -> tagOf q = tagOf p.
Proof.
  destruct p; simpl; intros H; try (now subst q);
    destruct H as [x ->]; reflexivity.
Qed.

(** X12.  Whatever a program does and however it ends, with a value or with
    an exception, every value object that existed before is still there with
    the same tag; a String value still holds the same buffer and an Object
    value the same map; and every buffer is still there with the same
    length: the length of a string never changes.  Host functions are
    assumed to keep value objects and buffers in this way. *)
Theorem a_run_keeps_tags_and_buffer_lengths
    jsfn fuel (stmts : list Node) scope h h' :
  host_grows jsfn ->
  (exists v, interpret jsfn fuel stmts scope h = Normal v h')
  \/ (exists e, interpret jsfn fuel stmts scope h = Throw e h') ->
  (forall l p,
      values h !! l = Some p ->
      exists q, values h' !! l = Some q /\ tagOf q = tagOf p)
  /\ (forall l b,
         values h !! l = Some (PString b) ->
         values h' !! l = Some (PString b))
  /\ (forall l o,
         values h !! l = Some (PObject o) ->
         values h' !! l = Some (PObject o))
  /\ (forall b bytes,
         buffers h !! b = Some bytes ->
         exists bytes', buffers h' !! b = Some bytes'
                        /\ length bytes' = length bytes).
Proof.
  intros Hhost Hrun.
  assert (Hext : heap_extends h h').
  { pose proof (grows_interpret jsfn fuel stmts scope h Hhost) as Hg.
    unfold grows in Hg. destruct Hrun as [[v E] | [e E]]; now rewrite E in Hg. }
  destruct Hext as [Hvals Hbufs]. repeat apply conj.
  - intros l p Hp. destruct (Hvals l p Hp) as (q & Hq & Hk).
    exists q. split; [exact Hq | now apply same_kind_tagOf].
  - intros l b Hp. destruct (Hvals l _ Hp) as (q & Hq & Hk).
    simpl in Hk. now subst q.
  - intros l o Hp. destruct (Hvals l _ Hp) as (q & Hq & Hk).
    simpl in Hk. now subst q.
  - exact Hbufs.
Qed.

(** [s[0] = 72; -o.n; 1 / 0;] on a String and an Object. *)
Lemma a_run_keeps_tags_and_buffer_lengths_witness :
  (forall l p,
      [PString 0; PInteger 5; PObject 0] !! l = Some p ->
      exists q, [PString 0; PInteger (-5); PObject 0; PNull; PInteger 0;
                 PInteger 72; PNull; PNull; PInteger 1; PInteger 0] !! l
                = Some q
                /\ tagOf q = tagOf p)
  /\ (forall b bytes,
         [[104; 105]%Z] !! b = Some bytes ->
         exists bytes', [[72; 105]%Z] !! b = Some bytes'
                        /\ length bytes' = length bytes).
Proof.
  assert (E : interpret builtins 5
    [ExprStmt
       (AssignmentExpr (SubscriptExpr (IdentifierExpr "s") (IntegerLiteralExpr 0))
          "=" (IntegerLiteralExpr 72));
     ExprStmt
       (UnaryExpr "-" (MemberExpr (IdentifierExpr "o") (IdentifierExpr "n")));
     ExprStmt one_over_zero]
    0
    {| values := [PString 0; PInteger 5; PObject 0];
       buffers := [[104; 105]%Z];
       objects := [{["n" := JRef 1]}];
       scopes := [{| parent := None;
                     symbols := {["s" := JRef 0; "o" := JRef 2]} |}] |}
    = Throw (Error "error: division by zero not allowed")
        {| values := [PString 0; PInteger (-5); PObject 0; PNull; PInteger 0;
                      PInteger 72; PNull; PNull; PInteger 1; PInteger 0];
           buffers := [[72; 105]%Z]; objects := [{["n" := JRef 1]}];
           scopes := [{| parent := None;
                         symbols := {["s" := JRef 0; "o" := JRef 2]} |}] |})
    by (vm_compute; reflexivity).
  pose proof (a_run_keeps_tags_and_buffer_lengths builtins 5 _ 0 _ _
                builtins_grow (or_intror (ex_intro _ _ E))) as H.
  split; [exact (proj1 H) | exact (proj2 (proj2 (proj2 H)))].
Defined.

(** ** Buffers hold bytes *)

Lemma keeps_bytes_bind {A B} (m : M A) (k : A -> M B) h :
  keeps_bytes m h ->
  (forall a h', m h = Normal a h' -> keeps_bytes (k a) h') ->
  keeps_bytes (bind m k) h.
Proof.
  unfold keeps_bytes, bind. intros Hm Hk Hok. specialize (Hm Hok).
  destruct (m h) as [a h'| e h'| |] eqn:E; try exact I; try exact Hm.
  exact (Hk a h' eq_refl Hm).
Qed.

(** A step that leaves the buffers as they are. *)
Lemma keeps_bytes_same {A} (m : M A) h :
  (forall a h', m h = Normal a h' -> buffers h' = buffers h) ->
  (forall e h', m h = Throw e h' -> buffers h' = buffers h) ->
  keeps_bytes m h.
Proof.
  unfold keeps_bytes, bytes_ok. intros Hn Ht Hok.
  destruct (m h) as [a h'| e h'| |] eqn:E; try exact I;
    intros b bytes Hb; apply (Hok b).
  - now rewrite <- (Hn a h' eq_refl).
  - now rewrite <- (Ht e h' eq_refl).
Qed.

Ltac same_buffers :=
  apply keeps_bytes_same; intros ? ? E;
  repeat match type of E with
         | context [match ?x with _ => _ end] => destruct x
         end;
  try discriminate E; injection E as <- <-; reflexivity.

Lemma keeps_bytes_ret {A} (a : A) h : keeps_bytes (ret a) h.
Proof. same_buffers. Qed.

Lemma keeps_bytes_throw {A} e h : keeps_bytes (@throw A e) h.
Proof. same_buffers. Qed.

Lemma keeps_bytes_outside {A} h : keeps_bytes (@outside A) h.
Proof. intros _. exact I. Qed.

Lemma keeps_bytes_alloc p h : keeps_bytes (alloc p) h.
Proof. same_buffers. Qed.

Lemma keeps_bytes_payloadOf v h : keeps_bytes (payloadOf v) h.
Proof. unfold payloadOf. same_buffers. Qed.

Lemma keeps_bytes_setPayload l p h : keeps_bytes (setPayload l p) h.
Proof. same_buffers. Qed.

Lemma keeps_bytes_readBuffer b h : keeps_bytes (readBuffer b) h.
Proof. unfold readBuffer. same_buffers. Qed.

Lemma keeps_bytes_newObject h : keeps_bytes newObject h.
Proof. same_buffers. Qed.

Lemma keeps_bytes_readObject o h : keeps_bytes (readObject o) h.
Proof. unfold readObject. same_buffers. Qed.

Lemma keeps_bytes_writeObject o m h : keeps_bytes (writeObject o m) h.
Proof. same_buffers. Qed.

Lemma keeps_bytes_objectSet o k v h : keeps_bytes (objectSet o k v) h.
Proof.
  unfold objectSet. destruct (String.eqb k "__proto__");
    [apply keeps_bytes_outside|].
  apply keeps_bytes_bind; [apply keeps_bytes_readObject|].
  intros m h' _. apply keeps_bytes_writeObject.
Qed.

Lemma keeps_bytes_Scope p h : keeps_bytes (Scope p) h.
Proof. same_buffers. Qed.

Lemma keeps_bytes_initVar scope symbol v h :
  keeps_bytes (initVar scope symbol v) h.
Proof. unfold initVar. same_buffers. Qed.

Lemma keeps_bytes_copyOnPass v h : keeps_bytes (copyOnPass v) h.
Proof.
  unfold copyOnPass. apply keeps_bytes_bind; [apply keeps_bytes_payloadOf|].
  intros [p|] h1 _; [|apply keeps_bytes_ret].
  destruct (value_like p); [apply keeps_bytes_alloc | apply keeps_bytes_ret].
Qed.

Lemma keeps_bytes_lookupVar scope symbol h :
  keeps_bytes (lookupVar scope symbol) h.
Proof.
  unfold keeps_bytes, lookupVar. intros Hok.
  destruct (findFrame _ _ _ _) as [[f|]|]; try exact I; [|exact Hok].
  destruct (scopes h !! f ≫= _) as [v|]; [|exact I].
  exact (keeps_bytes_copyOnPass v h Hok).
Qed.

Lemma keeps_bytes_assignVar scope symbol v h :
  keeps_bytes (assignVar scope symbol v) h.
Proof. unfold assignVar. same_buffers. Qed.

Lemma keeps_bytes_newBuffer bytes h :
  Forall is_byte bytes -> keeps_bytes (newBuffer bytes) h.
Proof.
  intros Hbytes Hok b old Hb. simpl in Hb.
  apply lookup_app_Some in Hb as [Hb | [_ Hb]].
  - now apply (Hok b).
  - apply list_lookup_singleton_Some in Hb as [_ <-]. exact Hbytes.
Qed.

Lemma keeps_bytes_writeBuffer b bytes h :
  Forall is_byte bytes -> keeps_bytes (writeBuffer b bytes) h.
Proof.
  intros Hbytes Hok b' old Hb. simpl in Hb.
  destruct (decide (b' = b)) as [->|Hne].
  - apply list_lookup_insert_Some in Hb as [(_ & <- & _) | [Hne _]];
      [exact Hbytes | now destruct Hne].
  - rewrite list_lookup_insert_ne in Hb by congruence. now apply (Hok b').
Qed.

Lemma ToUint8_is_byte n : is_byte (ToUint8 n).
Proof.
  unfold is_byte, ToUint8. destruct n as [z|]; [|lia].
  apply Z.mod_pos_bound. lia.
Qed.

Lemma typedArraySet_bytes a i b :
  Forall is_byte a -> is_byte b -> Forall is_byte (typedArraySet a i b).
Proof.
  intros Ha Hb. unfold typedArraySet. destruct (i <? 0)%Z; [exact Ha|].
  now apply Forall_insert.
Qed.

Lemma concatLoops_is_bytes l r :
  Forall is_byte l -> Forall is_byte r -> Forall is_byte (concatLoops l r).
Proof.
  intros Hl Hr. rewrite concatLoops_bytes. apply Forall_app. split; [exact Hl|].
  apply Forall_forall. intros x Hx.
  apply list_elem_of_fmap in Hx as (i & -> & _).
  destruct (r !! i) as [y|] eqn:E; simpl.
  - rewrite Forall_forall in Hr. apply Hr.
    apply list_elem_of_lookup. now exists i.
  - unfold is_byte. lia.
Qed.

Lemma keeps_bytes_mapM {A B} (f : A -> M B) (xs : list A) :
  (forall x h, keeps_bytes (f x) h) -> forall h, keeps_bytes (mapM f xs) h.
Proof.
  intros Hf. induction xs as [|x xs IH]; intros h; simpl.
  - apply keeps_bytes_ret.
  - apply keeps_bytes_bind; [apply Hf|]. intros y h1 _.
    apply keeps_bytes_bind; [apply IH|]. intros ys h2 _.
    apply keeps_bytes_ret.
Qed.

Lemma keeps_bytes_forM_ {A B} (f : A -> M B) (xs : list A) :
  (forall x h, keeps_bytes (f x) h) -> forall h, keeps_bytes (forM_ f xs) h.
Proof.
  intros Hf. induction xs as [|x xs IH]; intros h; simpl.
  - apply keeps_bytes_ret.
  - apply keeps_bytes_bind; [apply Hf|]. intros y h1 _. apply IH.
Qed.

Lemma keeps_bytes_catchReturn (m : M JsVal) h :
  keeps_bytes m h -> keeps_bytes (catchReturn m) h.
Proof.
  unfold keeps_bytes, catchReturn. intros Hm Hok. specialize (Hm Hok).
  destruct (m h) as [a h'| e h'| |]; try exact I.
  - exact Hm.
  - destruct e; exact Hm.
Qed.

(** One step of a proof that a computation built from [bind] keeps bytes. *)
Ltac keeps_step :=
  lazymatch goal with
  | |- keeps_bytes (bind _ _) _ => apply keeps_bytes_bind; [|intros ? ? ?]
  | |- keeps_bytes (ret _) _ => apply keeps_bytes_ret
  | |- keeps_bytes (throw _) _ => apply keeps_bytes_throw
  | |- keeps_bytes outside _ => apply keeps_bytes_outside
  | |- keeps_bytes (payloadOf _) _ => apply keeps_bytes_payloadOf
  | |- keeps_bytes (setPayload _ _) _ => apply keeps_bytes_setPayload
  | |- keeps_bytes (readBuffer _) _ => apply keeps_bytes_readBuffer
  | |- keeps_bytes newObject _ => apply keeps_bytes_newObject
  | |- keeps_bytes (readObject _) _ => apply keeps_bytes_readObject
  | |- keeps_bytes (objectSet _ _ _) _ => apply keeps_bytes_objectSet
  | |- keeps_bytes (Scope _) _ => apply keeps_bytes_Scope
  | |- keeps_bytes (initVar _ _ _) _ => apply keeps_bytes_initVar
  | |- keeps_bytes (lookupVar _ _) _ => apply keeps_bytes_lookupVar
  | |- keeps_bytes (assignVar _ _ _) _ => apply keeps_bytes_assignVar
  | |- keeps_bytes NullValue _ => apply keeps_bytes_alloc
  | |- keeps_bytes (FloatValue _) _ => apply keeps_bytes_alloc
  | |- keeps_bytes (IntegerValue _) _ => apply keeps_bytes_alloc
  | |- keeps_bytes (BooleanValue _) _ => apply keeps_bytes_alloc
  | |- keeps_bytes (StringValue _) _ => apply keeps_bytes_alloc
  | |- keeps_bytes (ObjectValue _) _ => apply keeps_bytes_alloc
  | |- keeps_bytes (FunctionValue _ _ _ _) _ => apply keeps_bytes_alloc
  | |- keeps_bytes (if ?b then _ else _) _ => destruct b
  | |- keeps_bytes (match ?x with _ => _ end) _ => destruct x
  end.

Section KeepsBytes.

Variable jsfn : nat -> list JsVal -> M JsVal.
Variable ev : Node -> nat -> M JsVal.
Hypothesis jsfn_keeps : host_keeps_bytes jsfn.
Hypothesis ev_keeps : forall node scope h, keeps_bytes (ev node scope) h.

Lemma keeps_bytes_evalSubscriptExpr left right scope h :
  keeps_bytes (evalSubscriptExpr ev left right scope) h.
Proof.
  unfold evalSubscriptExpr. repeat first [apply ev_keeps | keeps_step].
Qed.

Lemma keeps_bytes_evalUnaryExpr operator expr scope h :
  keeps_bytes (evalUnaryExpr ev operator expr scope) h.
Proof.
  unfold evalUnaryExpr. repeat first [apply ev_keeps | keeps_step].
Qed.

(** The new buffer of [+] holds bytes when the two operands do. *)
Lemma keeps_bytes_concat a b h :
  keeps_bytes
    (let* l := readBuffer a in
     let* r := readBuffer b in
     let* u8Array := newBuffer (concatLoops l r) in
     StringValue u8Array) h.
Proof.
  intros Hok. unfold bind, readBuffer.
  destruct (buffers h !! a) as [l|] eqn:Ea; [|exact I].
  destruct (buffers h !! b) as [r|] eqn:Eb; [|exact I].
  simpl. intros c bytes Hc.
  apply lookup_app_Some in Hc as [Hc | [_ Hc]].
  - now apply (Hok c).
  - apply list_lookup_singleton_Some in Hc as [_ <-].
    apply concatLoops_is_bytes; [now apply (Hok a) | now apply (Hok b)].
Qed.

Lemma keeps_bytes_binarySwitch operator lp rp h :
  keeps_bytes (binarySwitch operator lp rp) h.
Proof.
  unfold binarySwitch.
  repeat first [apply keeps_bytes_concat | keeps_step].
Qed.

Lemma keeps_bytes_evalBinaryExpr left operator right scope h :
  keeps_bytes (evalBinaryExpr ev left operator right scope) h.
Proof.
  unfold evalBinaryExpr.
  repeat first [apply ev_keeps | apply keeps_bytes_binarySwitch | keeps_step].
Qed.

Lemma keeps_bytes_evalObjectLiteralExpr properties scope h :
  keeps_bytes (evalObjectLiteralExpr ev properties scope) h.
Proof.
  unfold evalObjectLiteralExpr.
  apply keeps_bytes_bind; [apply keeps_bytes_newObject|].
  intros m h1 _. apply keeps_bytes_bind; [|intros; apply keeps_bytes_alloc].
  apply keeps_bytes_forM_. intros [symbol value] h2.
  repeat first [apply ev_keeps | keeps_step].
Qed.

Lemma keeps_bytes_evalMemberExpr left right scope h :
  keeps_bytes (evalMemberExpr ev left right scope) h.
Proof.
  unfold evalMemberExpr. repeat first [apply ev_keeps | keeps_step].
Qed.

(** The store of a subscript assignment writes a byte. *)
Lemma keeps_bytes_store buf i v (value : JsVal) h :
  keeps_bytes
    (let* bytes := readBuffer buf in
     let* _ :=
       writeBuffer buf
         (typedArraySet bytes i (ToUint8 (NumberOfBigInt v))) in
     ret value) h.
Proof.
  apply keeps_bytes_bind; [apply keeps_bytes_readBuffer|].
  intros bytes h1 Hb. apply readBuffer_Normal in Hb as [-> Hb].
  apply keeps_bytes_bind; [|intros; apply keeps_bytes_ret].
  intros Hok. apply keeps_bytes_writeBuffer; [|exact Hok].
  apply typedArraySet_bytes; [now apply (Hok buf) | apply ToUint8_is_byte].
Qed.

Lemma keeps_bytes_evalAssignmentExpr assignee operator value scope h :
  keeps_bytes (evalAssignmentExpr ev assignee operator value scope) h.
Proof.
  unfold evalAssignmentExpr.
  repeat first [apply ev_keeps | apply keeps_bytes_store | keeps_step].
Qed.

Lemma keeps_bytes_evalBlockStmt stmts scope h :
  keeps_bytes (evalBlockStmt ev stmts scope) h.
Proof.
  unfold evalBlockStmt.
  apply keeps_bytes_bind; [|intros; apply keeps_bytes_alloc].
  apply keeps_bytes_forM_. intros stmt h1. apply ev_keeps.
Qed.

Lemma keeps_bytes_invoke fn args h : keeps_bytes (invoke jsfn ev fn args) h.
Proof.
  unfold invoke. apply keeps_bytes_bind; [apply keeps_bytes_payloadOf|].
  intros fp h1 _. destruct fp as [[]|]; try apply keeps_bytes_throw.
  - destruct (negb _); [apply keeps_bytes_throw|].
    apply keeps_bytes_bind; [apply keeps_bytes_Scope|]. intros newScope h2 _.
    apply keeps_bytes_bind.
    + apply keeps_bytes_forM_. intros [parameter arg] h3.
      apply keeps_bytes_initVar.
    + intros _ h3 _. apply keeps_bytes_catchReturn, keeps_bytes_evalBlockStmt.
  - apply jsfn_keeps.
Qed.

Lemma keeps_bytes_evalCallExpr caller args scope h :
  keeps_bytes (evalCallExpr jsfn ev caller args scope) h.
Proof.
  unfold evalCallExpr. apply keeps_bytes_bind.
  - apply keeps_bytes_mapM. intros expr h1. apply ev_keeps.
  - intros vs h1 _. apply keeps_bytes_bind; [apply ev_keeps|].
    intros fn h2 _. apply keeps_bytes_invoke.
Qed.

Lemma keeps_bytes_evalIfStmt ifs dflt scope :
  forall h, keeps_bytes (evalIfStmt ev ifs dflt scope) h.
Proof.
  induction ifs as [|[condition block] rest IH]; intros h; simpl.
  - destruct dflt as [block|]; [|apply keeps_bytes_alloc].
    repeat first [apply keeps_bytes_evalBlockStmt | keeps_step].
  - apply keeps_bytes_bind; [apply ev_keeps|]. intros rv h1 _.
    apply keeps_bytes_bind; [apply keeps_bytes_payloadOf|]. intros p h2 _.
    destruct p as [[]|]; try apply keeps_bytes_throw.
    destruct value; [|apply IH].
    repeat first [apply keeps_bytes_evalBlockStmt | keeps_step].
Qed.

Lemma keeps_bytes_evaluateNode node scope h :
  keeps_bytes (evaluateNode jsfn ev node scope) h.
Proof.
  destruct node; simpl.
  - unfold evalVarStmt. repeat first [apply ev_keeps | keeps_step].
  - unfold evalExprStmt. repeat first [apply ev_keeps | keeps_step].
  - apply keeps_bytes_bind; [apply keeps_bytes_Scope|].
    intros inner h1 _. apply keeps_bytes_evalBlockStmt.
  - apply keeps_bytes_evalIfStmt.
  - unfold evalReturnStmt. repeat first [apply ev_keeps | keeps_step].
  - apply keeps_bytes_alloc.
  - apply keeps_bytes_alloc.
  - apply keeps_bytes_alloc.
  - destruct value; apply keeps_bytes_alloc.
  - apply keeps_bytes_alloc.
  - apply keeps_bytes_lookupVar.
  - apply keeps_bytes_evalBinaryExpr.
  - apply keeps_bytes_evalUnaryExpr.
  - apply keeps_bytes_evalAssignmentExpr.
  - apply keeps_bytes_evalMemberExpr.
  - apply keeps_bytes_evalSubscriptExpr.
  - apply keeps_bytes_evalCallExpr.
  - apply keeps_bytes_evalObjectLiteralExpr.
  - apply keeps_bytes_alloc.
Qed.

End KeepsBytes.

Lemma keeps_bytes_evaluate jsfn :
  host_keeps_bytes jsfn ->
  forall fuel node scope h, keeps_bytes (evaluate jsfn fuel node scope) h.
Proof.
  intros Hhost. induction fuel as [|fuel IH]; intros node scope h.
  - intros _. exact I.
  - rewrite evaluate_S. now apply keeps_bytes_evaluateNode.
Qed.

Lemma builtins_keep_bytes : host_keeps_bytes builtins.
Proof.
  intros f args h. destruct f as [|f]; [|apply keeps_bytes_outside].
  unfold builtins, strings_len.
  destruct args as [|str [|]]; try apply keeps_bytes_throw.
  repeat keeps_step.
Qed.

Lemma keeps_bytes_interpretLoop jsfn fuel (stmts : list Node) scope :
  host_keeps_bytes jsfn ->
  forall lastEval h,
    keeps_bytes (interpretLoop (evaluate jsfn fuel) stmts scope lastEval) h.
Proof.
  intros Hhost. induction stmts as [|stmt rest IH]; intros lastEval h; simpl.
  - apply keeps_bytes_ret.
  - apply keeps_bytes_bind; [now apply keeps_bytes_evaluate|].
    intros v h1 _. apply IH.
Qed.

Lemma parsed_bytes_ok (literals : list (list Z)) :
  Forall (Forall is_byte) literals -> bytes_ok (parsed literals).
Proof.
  intros Hall b bytes Hb. simpl in Hb. rewrite Forall_forall in Hall.
  apply Hall. apply list_elem_of_lookup. now exists b.
Qed.

(** X13.  Buffers hold bytes throughout a run: when every element of every
    buffer is in [0, 255] before a program runs, as for the buffers a parser
    makes from string literals, the same holds when the program ends, with a
    value or with an exception; neither [+] nor a subscript assignment, of
    whatever Integer, stores anything else.  Host functions are assumed to
    store bytes only. *)
Theorem a_run_keeps_buffers_of_bytes
    jsfn fuel (stmts : list Node) scope h h' :
  host_keeps_bytes jsfn ->
  bytes_ok h ->
  (exists v, interpret jsfn fuel stmts scope h = Normal v h')
  \/ (exists e, interpret jsfn fuel stmts scope h = Throw e h') ->
  forall b bytes x,
    buffers h' !! b = Some bytes -> x ∈ bytes -> (0 <= x < 256)%Z.
Proof.
  intros Hhost Hok Hrun b bytes x Hb Hx.
  assert (Hk : keeps_bytes (interpret jsfn fuel stmts scope) h).
  { unfold interpret. apply keeps_bytes_bind; [apply keeps_bytes_alloc|].
    intros v h1 _. now apply keeps_bytes_interpretLoop. }
  specialize (Hk Hok).
  assert (Hok' : bytes_ok h')
    by (destruct Hrun as [[v E] | [e E]]; now rewrite E in Hk).
  specialize (Hok' b bytes Hb). rewrite Forall_forall in Hok'.
  now apply Hok'.
Qed.

(** [s[0] = -1; s[1] = 9007199254740993; s + s;] on "hi" *)
Lemma a_run_keeps_buffers_of_bytes_witness :
  interpret builtins 3
    [ExprStmt
       (AssignmentExpr (SubscriptExpr (StringLiteralExpr 0) (IntegerLiteralExpr 0))
          "=" (IntegerLiteralExpr (-1)));
     ExprStmt
       (AssignmentExpr (SubscriptExpr (StringLiteralExpr 0) (IntegerLiteralExpr 1))
          "=" (IntegerLiteralExpr 9007199254740993));
     BinaryExpr (StringLiteralExpr 0) "+" (StringLiteralExpr 0)]
    0 (parsed [[104; 105]%Z])
  = Normal (JRef 11)
      {| values := [PNull; PString 0; PInteger 0; PInteger (-1); PNull;
                    PString 0; PInteger 1; PInteger 9007199254740993;
                    PNull; PString 0; PString 0; PString 1];
         buffers := [[255; 0]; [255; 0; 0; 0]]%Z; objects := [];
         scopes := [root_scope] |}
  /\ (0 <= 255 < 256)%Z.
Proof.
  assert (E : interpret builtins 3
    [ExprStmt
       (AssignmentExpr (SubscriptExpr (StringLiteralExpr 0) (IntegerLiteralExpr 0))
          "=" (IntegerLiteralExpr (-1)));
     ExprStmt
       (AssignmentExpr (SubscriptExpr (StringLiteralExpr 0) (IntegerLiteralExpr 1))
          "=" (IntegerLiteralExpr 9007199254740993));
     BinaryExpr (StringLiteralExpr 0) "+" (StringLiteralExpr 0)]
    0 (parsed [[104; 105]%Z])
    = Normal (JRef 11)
        {| values := [PNull; PString 0; PInteger 0; PInteger (-1); PNull;
                      PString 0; PInteger 1; PInteger 9007199254740993;
                      PNull; PString 0; PString 0; PString 1];
           buffers := [[255; 0]; [255; 0; 0; 0]]%Z; objects := [];
           scopes := [root_scope] |})
    by (vm_compute; reflexivity).
  split; [exact E|].
  apply (a_run_keeps_buffers_of_bytes builtins 3 _ 0 _ _ builtins_keep_bytes
           (parsed_bytes_ok [[104; 105]%Z]
              ltac:(repeat constructor; unfold is_byte; lia))
           (or_introl (ex_intro _ _ E)) 1 [255; 0; 0; 0]%Z 255%Z eq_refl).
  constructor.
Defined.

(** X14.  A subscript read that returns gives a new Integer between 0 and
    255, in a heap whose buffers hold bytes (as before: buffers of bytes at
    the start, host functions that store bytes only). *)
Theorem subscript_read_gives_a_byte
    jsfn fuel (left right : Node) scope h v h' :
  host_keeps_bytes jsfn ->
  bytes_ok h ->
  evaluate jsfn fuel (SubscriptExpr left right) scope h = Normal v h' ->
  exists l x,
    v = JRef l /\ values h' !! l = Some (PInteger x) /\ (0 <= x < 256)%Z.
Proof.
  intros Hhost Hok E. destruct fuel as [|fuel]; [discriminate E|].
  rewrite evaluate_S in E. simpl in E. unfold evalSubscriptExpr in E.
  pose proof (keeps_bytes_evaluate jsfn Hhost fuel left scope h Hok) as Hk1.
  unfold bind at 1 in E.
  destruct (evaluate jsfn fuel left scope h) as [lhs h1| | |];
    try discriminate E.
  pose proof (keeps_bytes_evaluate jsfn Hhost fuel right scope h1 Hk1) as Hk2.
  unfold bind at 1 in E.
  destruct (evaluate jsfn fuel right scope h1) as [rhs h2| | |];
    try discriminate E.
  unfold bind at 1 in E.
  destruct (payloadOf lhs h2) as [lp h3| | |] eqn:Hl; try discriminate E.
  apply payloadOf_heap in Hl as ->.
  unfold bind at 1 in E.
  destruct (payloadOf rhs h2) as [rp h3| | |] eqn:Hr; try discriminate E.
  apply payloadOf_heap in Hr as ->.
  destruct lp as [[]|]; try discriminate E.
  destruct rp as [[]|]; try discriminate E.
  unfold bind at 1 in E.
  destruct (readBuffer value h2) as [bytes h3| | |] eqn:Hb;
    try discriminate E.
  apply readBuffer_Normal in Hb as [-> Hb].
  destruct (_ <=? _)%Z; [discriminate E|].
  unfold typedArrayGet in E. destruct (_ <? 0)%Z; [discriminate E|].
  destruct (bytes !! Z.to_nat value0) as [x|] eqn:Hx; [|discriminate E].
  injection E as <- <-. exists (length (values h2)), x. simpl.
  split; [|split].
  - reflexivity.
  - now apply list_lookup_middle.
  - specialize (Hk2 value bytes Hb). rewrite Forall_forall in Hk2.
    apply Hk2. apply list_elem_of_lookup. now exists (Z.to_nat value0).
Qed.

(** ["hi"[1]] *)
Lemma subscript_read_gives_a_byte_witness :
  exists l x,
    JRef 2 = JRef l
    /\ [PString 0; PInteger 1; PInteger 105] !! l = Some (PInteger x)
    /\ (0 <= x < 256)%Z.
Proof.
  exact (subscript_read_gives_a_byte builtins 2
           (StringLiteralExpr 0) (IntegerLiteralExpr 1) 0
           (parsed [[104; 105]%Z]) (JRef 2)
           {| values := [PString 0; PInteger 1; PInteger 105];
              buffers := [[104; 105]%Z]; objects := [];
              scopes := [root_scope] |}
           builtins_keep_bytes
           (parsed_bytes_ok [[104; 105]%Z]
              ltac:(repeat constructor; unfold is_byte; lia))
           eq_refl).
Defined.

(** ** More on subscript assignments *)

(** X15.  Two edges of [s[i] = v] on a String [s] and an Integer [i] below
    the length.  When [v] does not evaluate to an Integer the assignment
    fails with the integer error, after [v] was evaluated, and stores
    nothing.  When [i] is negative (the bounds check has no lower bound) and
    [v] is an Integer, the assignment raises nothing and stores nothing: it
    returns the value object of [v] in the heap the evaluation of [v] left.
    (The index object is assumed to be left as it was by the evaluation of
    [v], and host functions to keep value objects and buffers.) *)
Theorem subscript_assignment_edges
    jsfn fuel (left right value : Node) scope h lhs h1 rhs h2 buf i bytes
    vref h3 vp :
  host_grows jsfn ->
  evaluate jsfn fuel left scope h = Normal lhs h1 ->
  evaluate jsfn fuel right scope h1 = Normal rhs h2 ->
  payloadOf lhs h2 = Normal (Some (PString buf)) h2 ->
  payloadOf rhs h2 = Normal (Some (PInteger i)) h2 ->
  buffers h2 !! buf = Some bytes ->
  (i < Z.of_nat (length bytes))%Z ->
  evaluate jsfn fuel value scope h2 = Normal vref h3 ->
  payloadOf vref h3 = Normal vp h3 ->
  let assign :=
    evaluate jsfn (S fuel)
      (AssignmentExpr (SubscriptExpr left right) "=" value) scope h in
  (tag vp <> Some INTEGER ->
   assign
   = Throw (Error "error: string index can only be assigned to type integer")
       h3)
  /\
  (forall v,
      vp = Some (PInteger v) ->
      payloadOf rhs h3 = Normal (Some (PInteger i)) h3 ->
      (i < 0)%Z ->
      assign = Normal vref h3).
Proof.
  intros Hhost El Er Hl Hr Hb Hi Ev Hv assign. subst assign.
  rewrite evaluate_S. unfold evaluateNode, evalAssignmentExpr.
  change ("=" =? "=")%string with true. cbv iota.
  step_bind El. step_bind Er. step_bind Hl. step_bind Hr.
  assert (Eb : readBuffer buf h2 = Normal bytes h2)
    by (unfold readBuffer; now rewrite Hb).
  step_bind Eb. apply Z.leb_gt in Hi. rewrite Hi.
  step_bind Ev. step_bind Hv. split.
  - intros Hn. apply tag_not_INTEGER in Hn.
    destruct vp as [[]|]; try reflexivity; contradiction.
  - intros v -> Hr3 Hneg.
    pose proof (grows_evaluate jsfn Hhost fuel value scope h2) as Hg.
    unfold grows in Hg. rewrite Ev in Hg. destruct Hg as [Hvals Hbufs].
    apply payloadOf_Some in Hl as (_ & l & -> & Hl).
    destruct (Hvals l _ Hl) as (q & Hq & Hkind). simpl in Hkind. subst q.
    destruct (Hbufs buf bytes Hb) as (bytes3 & Hb3 & Hlen).
    step_bind (payloadOf_JRef _ _ _ Hq). step_bind Hr3.
    assert (Eb3 : readBuffer buf h3 = Normal bytes3 h3)
      by (unfold readBuffer; now rewrite Hb3).
    step_bind Eb3. unfold typedArraySet.
    apply Z.ltb_lt in Hneg. rewrite Hneg.
    unfold bind, writeBuffer, ret, set_buffers.
    rewrite list_insert_id by exact Hb3. now destruct h3.
Qed.

(** ["hi"[0 - 1] = 72] *)
Lemma subscript_assignment_edges_witness :
  evaluate builtins 3
    (AssignmentExpr
       (SubscriptExpr (StringLiteralExpr 0)
          (BinaryExpr (IntegerLiteralExpr 0) "-" (IntegerLiteralExpr 1)))
       "=" (IntegerLiteralExpr 72))
    0 (parsed [[104; 105]%Z])
  = Normal (JRef 4)
      {| values := [PString 0; PInteger 0; PInteger 1; PInteger (-1);
                    PInteger 72];
         buffers := [[104; 105]%Z]; objects := []; scopes := [root_scope] |}.
Proof.
  apply (proj2 (subscript_assignment_edges builtins 2
    (StringLiteralExpr 0)
    (BinaryExpr (IntegerLiteralExpr 0) "-" (IntegerLiteralExpr 1))
    (IntegerLiteralExpr 72) 0 (parsed [[104; 105]%Z])
    (JRef 0)
    {| values := [PString 0]; buffers := [[104; 105]%Z]; objects := [];
       scopes := [root_scope] |}
    (JRef 3)
    {| values := [PString 0; PInteger 0; PInteger 1; PInteger (-1)];
       buffers := [[104; 105]%Z]; objects := []; scopes := [root_scope] |}
    0 (-1)%Z [104; 105]%Z
    (JRef 4)
    {| values := [PString 0; PInteger 0; PInteger 1; PInteger (-1);
                  PInteger 72];
       buffers := [[104; 105]%Z]; objects := []; scopes := [root_scope] |}
    (Some (PInteger 72))
    builtins_grow eq_refl ltac:(vm_compute; reflexivity) eq_refl eq_refl
    eq_refl ltac:(simpl; lia) eq_refl eq_refl) 72%Z eq_refl eq_refl).
  lia.
Defined.

(** ** The length of strings *)

(** X16.  [strings.len] takes exactly one argument, which must be a String,
    and returns the number of bytes of its buffer as a new Integer; any other
    number of arguments and any other argument is an error. *)
Theorem strings_len_counts_bytes (rv_arr : list JsVal) h :
  (length rv_arr <> 1 ->
   strings_len rv_arr h
   = Throw (Error "error: strings.len function expects one argument") h)
  /\
  (forall str p,
      rv_arr = [str] -> payloadOf str h = Normal p h ->
      tag p <> Some STRING ->
      strings_len rv_arr h
      = Throw (Error "error: strings.len function expects a string") h)
  /\
  (forall str buf bytes,
      rv_arr = [str] -> payloadOf str h = Normal (Some (PString buf)) h ->
      buffers h !! buf = Some bytes ->
      strings_len rv_arr h
      = Normal (JRef (length (values h)))
          (with_value h (PInteger (Z.of_nat (length bytes))))).
Proof.
  split; [|split].
  - intros Hlen. destruct rv_arr as [|str [|]]; try reflexivity.
    now destruct Hlen.
  - intros str p -> Hp Hn. unfold strings_len. step_bind Hp.
    apply tag_not_STRING in Hn.
    destruct p as [[]|]; try reflexivity; contradiction.
  - intros str buf bytes -> Hp Hb. unfold strings_len. step_bind Hp.
    assert (Eb : readBuffer buf h = Normal bytes h)
      by (unfold readBuffer; now rewrite Hb).
    now step_bind Eb.
Qed.

(** [strings.len("hi", "hi")] *)
Lemma strings_len_counts_bytes_witness :
  strings_len [JRef 0; JRef 0]
    {| values := [PString 0]; buffers := [[104; 105]%Z]; objects := [];
       scopes := [root_scope] |}
  = Throw (Error "error: strings.len function expects one argument")
      {| values := [PString 0]; buffers := [[104; 105]%Z]; objects := [];
         scopes := [root_scope] |}.
Proof.
  apply (proj1 (strings_len_counts_bytes [JRef 0; JRef 0] _)).
  simpl. lia.
Defined.

(** X17.  [+] on two Strings gives a new String value with a new buffer and
    leaves the buffers of the operands as they are, so the result shares
    nothing with them.  The new buffer has the summed length and begins with
    the bytes of the left operand; it is a copy of the right operand when the
    left one is empty, and a copy of the left operand when the right one is
    empty.  [strings.len] of the result is the sum of the two lengths. *)
Theorem string_concatenation_allocates
    jsfn fuel (left right : Node) scope h lhs h1 rhs h2 a b l r :
  evaluate jsfn fuel left scope h = Normal lhs h1 ->
  evaluate jsfn fuel right scope h1 = Normal rhs h2 ->
  payloadOf lhs h2 = Normal (Some (PString a)) h2 ->
  payloadOf rhs h2 = Normal (Some (PString b)) h2 ->
  buffers h2 !! a = Some l ->
  buffers h2 !! b = Some r ->
  exists u,
    let h3 :=
      {| values := values h2 ++ [PString (length (buffers h2))];
         buffers := buffers h2 ++ [u];
         objects := objects h2; scopes := scopes h2 |} in
    evaluate jsfn (S fuel) (BinaryExpr left "+" right) scope h
    = Normal (JRef (length (values h2))) h3
    /\ length u = length l + length r
    /\ take (length l) u = l
    /\ (l = [] -> u = r)
    /\ (r = [] -> u = l)
    /\ strings_len [JRef (length (values h2))] h3
       = Normal (JRef (S (length (values h2))))
           (with_value h3 (PInteger (Z.of_nat (length l + length r)))).
Proof.
  intros El Er Hl Hr Ha Hb. exists (concatLoops l r). cbv zeta.
  rewrite (evaluate_binary _ _ _ _ _ _ _ _ _ _ _ _ _ El Er Hl Hr).
  repeat apply conj.
  - unfold binarySwitch. simpl.
    assert (Ea : readBuffer a h2 = Normal l h2)
      by (unfold readBuffer; now rewrite Ha).
    assert (Eb : readBuffer b h2 = Normal r h2)
      by (unfold readBuffer; now rewrite Hb).
    step_bind Ea. now step_bind Eb.
  - apply concatLoops_length.
  - rewrite concatLoops_bytes. apply take_app_length.
  - intros ->. rewrite concatLoops_bytes. simpl. apply map_lookup_seq.
  - intros ->. rewrite concatLoops_bytes. simpl. apply app_nil_r.
  - unfold strings_len, payloadOf, bind. simpl.
    rewrite list_lookup_middle by reflexivity.
    unfold readBuffer. simpl.
    rewrite list_lookup_middle by reflexivity.
    unfold IntegerValue, alloc, with_value, set_values. simpl.
    rewrite length_app, concatLoops_length. simpl.
    do 3 f_equal. lia.
Qed.

(** ["" + "cd"] *)
Lemma string_concatenation_allocates_witness :
  exists u,
    evaluate builtins 2
      (BinaryExpr (StringLiteralExpr 0) "+" (StringLiteralExpr 1)) 0
      (parsed [[]; [99; 100]]%Z)
    = Normal (JRef 2)
        {| values := [PString 0; PString 1; PString 2];
           buffers := [[]; [99; 100]; u]%Z;
           objects := []; scopes := [root_scope] |}
    /\ u = [99; 100]%Z.
Proof.
  destruct (string_concatenation_allocates builtins 1
              (StringLiteralExpr 0) (StringLiteralExpr 1) 0
              (parsed [[]; [99; 100]]%Z)
              (JRef 0)
              {| values := [PString 0]; buffers := [[]; [99; 100]]%Z;
                 objects := []; scopes := [root_scope] |}
              (JRef 1)
              {| values := [PString 0; PString 1];
                 buffers := [[]; [99; 100]]%Z;
                 objects := []; scopes := [root_scope] |}
              0 1 [] [99; 100]%Z
              eq_refl eq_refl eq_refl eq_refl eq_refl eq_refl)
    as (u & Hplus & _ & _ & Hcopy & _).
  exists u. split; [exact Hplus | now apply Hcopy].
Defined.

(** ** Programs *)

Lemma interpretLoop_after ev (pre post : list Node) (stmt : Node) scope :
  forall lastEval h h1,
    forM_ (fun s => ev s scope) pre h = Normal tt h1 ->
    interpretLoop ev (pre ++ stmt :: post) scope lastEval h
    = (let* lastEval := ev stmt scope in
       interpretLoop ev post scope lastEval) h1.
Proof.
  induction pre as [|s pre IH]; intros lastEval h h1 Hpre.
  - simpl in Hpre. injection Hpre as <-. reflexivity.
  - simpl in Hpre. unfold bind in Hpre. simpl. unfold bind at 1.
    destruct (ev s scope h) as [v h'| | |]; try discriminate Hpre.
    now apply IH.
Qed.

(** X18.  [interpret] runs the statements of a program in order in one
    scope: the outcome of a program is the outcome of its last statement,
    evaluated in the heap the statements before it left; an exception of a
    statement ends the program there, the statements after it are not
    evaluated; and the empty program gives a new Null. *)
Theorem interpret_gives_the_last_statement
    jsfn fuel (pre : list Node) scope h h1 :
  forM_ (fun s => evaluate jsfn fuel s scope) pre (with_value h PNull)
  = Normal tt h1 ->
  (forall stmt,
      interpret jsfn fuel (pre ++ [stmt]) scope h
      = evaluate jsfn fuel stmt scope h1)
  /\
  (forall stmt post e h2,
      evaluate jsfn fuel stmt scope h1 = Throw e h2 ->
      interpret jsfn fuel (pre ++ stmt :: post) scope h = Throw e h2)
  /\
  interpret jsfn fuel [] scope h
  = Normal (JRef (length (values h))) (with_value h PNull).
Proof.
  intros Hpre. split; [|split].
  - intros stmt. unfold interpret, NullValue, alloc. unfold bind at 1.
    rewrite (interpretLoop_after _ _ _ _ _ _ _ _ Hpre). simpl. unfold bind.
    now destruct (evaluate jsfn fuel stmt scope h1).
  - intros stmt post e h2 Hs. unfold interpret, NullValue, alloc.
    unfold bind at 1.
    rewrite (interpretLoop_after _ _ _ _ _ _ _ _ Hpre).
    now rewrite (bind_Throw _ _ _ _ _ Hs).
  - reflexivity.
Qed.

(** [var x = 1; x + 1;] *)
Lemma interpret_gives_the_last_statement_witness :
  interpret builtins 2
    [VarStmt "x" (IntegerLiteralExpr 1);
     BinaryExpr (IdentifierExpr "x") "+" (IntegerLiteralExpr 1)]
    0 (parsed [])
  = Normal (JRef 5)
      {| values := [PNull; PInteger 1; PNull; PInteger 1; PInteger 1;
                    PInteger 2];
         buffers := []; objects := [];
         scopes := [{| parent := None; symbols := {["x" := JRef 1]} |}] |}.
Proof.
  assert (Hpre : forM_ (fun s => evaluate builtins 2 s 0)
                   [VarStmt "x" (IntegerLiteralExpr 1)]
                   (with_value (parsed []) PNull)
                 = Normal tt
                     {| values := [PNull; PInteger 1; PNull]; buffers := [];
                        objects := [];
                        scopes := [{| parent := None;
                                      symbols := {["x" := JRef 1]} |}] |})
    by (vm_compute; reflexivity).
  etransitivity.
  - apply (proj1 (interpret_gives_the_last_statement builtins 2
                    [VarStmt "x" (IntegerLiteralExpr 1)] 0 (parsed []) _
                    Hpre)).
  - vm_compute. reflexivity.
Defined.

(** ** Object literals *)

Lemma forM__fmap_ext {A B C} (f : A -> M C) (g : B -> M C) (t : B -> A)
    (xs : list B) :
  (forall x, f (t x) = g x) -> forM_ f (t <$> xs) = forM_ g xs.
Proof.
  intros Hfg. induction xs as [|x xs IH]; [reflexivity|].
  rewrite fmap_cons. cbn [forM_]. now rewrite Hfg, IH.
Qed.

(** X19.  The shorthand property [name] of an object literal is the property
    [name: name]: writing every shorthand property of a literal in full gives
    the same outcome in the same heap, wherever the literal is evaluated. *)
Theorem object_literal_shorthand_is_longhand
    jsfn fuel (properties : list (string * option Node)) scope h :
  evaluate jsfn (S (S fuel)) (ObjectLiteralExpr (longhand <$> properties))
    scope h
  = evaluate jsfn (S (S fuel)) (ObjectLiteralExpr properties) scope h.
Proof.
  rewrite !evaluate_S. unfold evaluateNode, evalObjectLiteralExpr.
  unfold bind at 1 3. unfold newObject. cbv beta iota.
  f_equal.
  erewrite forM__fmap_ext; [reflexivity|].
  intros [symbol [value|]]; reflexivity.
Qed.

(** ** Rejected member and subscript expressions *)

Lemma tag_not_OBJECT (p : option Payload) :
  tag p <> Some OBJECT ->
  match p with Some (PObject _) => False | _ => True end.
Proof. destruct p as [[]|]; simpl; intros H; try exact I. now apply H. Qed.

(** X20.  The dot operator needs an Object on its left and an identifier on
    its right, in a read and in an assignment alike, and the Object is
    checked first.  A member assignment makes both checks before it
    evaluates the assigned expression: when it is rejected, only the left
    side of the dot has been evaluated. *)
Theorem member_access_needs_an_object
    jsfn fuel (left right value : Node) scope h parentVal h1 pp :
  evaluate jsfn fuel left scope h = Normal parentVal h1 ->
  payloadOf parentVal h1 = Normal pp h1 ->
  let read := evaluate jsfn (S fuel) (MemberExpr left right) scope h in
  let assign :=
    evaluate jsfn (S fuel) (AssignmentExpr (MemberExpr left right) "=" value)
      scope h in
  (tag pp <> Some OBJECT ->
   read
   = Throw (Error "error: dot operator can only be called on type object") h1
   /\ assign
      = Throw (Error "error: dot operator can only be called on type object")
          h1)
  /\
  (tag pp = Some OBJECT -> is_identifier right = false ->
   read
   = Throw
       (Error "error: right hand side of dot operator must be an identifier")
       h1
   /\ assign
      = Throw
          (Error
             "error: right hand side of dot operator must be an identifier")
          h1).
Proof.
  intros El Hp read assign. subst read assign.
  rewrite !evaluate_S. unfold evaluateNode, evalMemberExpr, evalAssignmentExpr.
  change ("=" =? "=")%string with true. cbv iota.
  step_bind El. step_bind Hp. step_bind El. step_bind Hp. split.
  - intros Hn. apply tag_not_OBJECT in Hn.
    destruct pp as [[]|]; try (split; reflexivity); contradiction.
  - intros Ho Hr. destruct pp as [[]|]; try discriminate Ho.
    destruct right; try discriminate Hr; split; reflexivity.
Qed.

(** [1.x = 2] *)
Lemma member_access_needs_an_object_witness :
  evaluate builtins 2
    (AssignmentExpr (MemberExpr (IntegerLiteralExpr 1) (IdentifierExpr "x"))
       "=" (IntegerLiteralExpr 2))
    0 (parsed [])
  = Throw (Error "error: dot operator can only be called on type object")
      (with_value (parsed []) (PInteger 1)).
Proof.
  apply (proj1 (member_access_needs_an_object builtins 1
                  (IntegerLiteralExpr 1) (IdentifierExpr "x")
                  (IntegerLiteralExpr 2) 0 (parsed []) (JRef 0)
                  (with_value (parsed []) (PInteger 1)) (Some (PInteger 1))
                  eq_refl eq_refl)).
  discriminate.
Defined.

(** X21.  A subscript read and a subscript assignment reject the same
    operands with the same errors, after both operands were evaluated: a
    left operand that is not a String, then an index that is not an Integer,
    then an index that is not below the length of the string.  The rejected
    assignment has not evaluated the assigned expression and has stored
    nothing. *)
Theorem subscript_rejects_the_same_operands
    jsfn fuel (left right value : Node) scope h lhs h1 rhs h2 lp rp :
  evaluate jsfn fuel left scope h = Normal lhs h1 ->
  evaluate jsfn fuel right scope h1 = Normal rhs h2 ->
  payloadOf lhs h2 = Normal lp h2 ->
  payloadOf rhs h2 = Normal rp h2 ->
  let read := evaluate jsfn (S fuel) (SubscriptExpr left right) scope h in
  let assign :=
    evaluate jsfn (S fuel)
      (AssignmentExpr (SubscriptExpr left right) "=" value) scope h in
  (tag lp <> Some STRING ->
   read
   = Throw (Error "error: lhs of subscript expresssion must be a string") h2
   /\ assign
      = Throw (Error "error: lhs of subscript expresssion must be a string")
          h2)
  /\
  (tag lp = Some STRING -> tag rp <> Some INTEGER ->
   read
   = Throw (Error "error: subscript expression expects integer argument") h2
   /\ assign
      = Throw (Error "error: subscript expression expects integer argument")
          h2)
  /\
  (forall buf i bytes,
      lp = Some (PString buf) -> rp = Some (PInteger i) ->
      buffers h2 !! buf = Some bytes ->
      (Z.of_nat (length bytes) <= i)%Z ->
      read
      = Throw (Error "error: attempting to index outside of string range") h2
      /\ assign
         = Throw (Error "error: attempting to index outside of string range")
             h2).
Proof.
  intros El Er Hl Hr read assign. subst read assign.
  rewrite !evaluate_S.
  unfold evaluateNode, evalSubscriptExpr, evalAssignmentExpr.
  change ("=" =? "=")%string with true. cbv iota.
  step_bind El. step_bind Er. step_bind Hl. step_bind Hr.
  step_bind El. step_bind Er. step_bind Hl. step_bind Hr.
  split; [|split].
  - intros Hn. apply tag_not_STRING in Hn.
    destruct lp as [[]|]; try (split; reflexivity); contradiction.
  - intros Hs Hn. apply tag_not_INTEGER in Hn.
    destruct lp as [[]|]; try discriminate Hs.
    destruct rp as [[]|]; try (split; reflexivity); contradiction.
  - intros buf i bytes -> -> Hb Hi.
    assert (Eb : readBuffer buf h2 = Normal bytes h2)
      by (unfold readBuffer; now rewrite Hb).
    step_bind Eb. step_bind Eb. apply Z.leb_le in Hi. rewrite Hi.
    split; reflexivity.
Qed.

(** ["hi"[2] = 1 / 0]: the range error, not the division by zero. *)
Lemma subscript_rejects_the_same_operands_witness :
  evaluate builtins 2
    (AssignmentExpr (SubscriptExpr (StringLiteralExpr 0) (IntegerLiteralExpr 2))
       "=" one_over_zero)
    0 (parsed [[104; 105]%Z])
  = Throw (Error "error: attempting to index outside of string range")
      {| values := [PString 0; PInteger 2]; buffers := [[104; 105]%Z];
         objects := []; scopes := [root_scope] |}.
Proof.
  apply (proj2 (proj2 (proj2 (subscript_rejects_the_same_operands builtins 1
    (StringLiteralExpr 0) (IntegerLiteralExpr 2) one_over_zero 0
    (parsed [[104; 105]%Z])
    (JRef 0)
    {| values := [PString 0]; buffers := [[104; 105]%Z]; objects := [];
       scopes := [root_scope] |}
    (JRef 1)
    {| values := [PString 0; PInteger 2]; buffers := [[104; 105]%Z];
       objects := []; scopes := [root_scope] |}
    (Some (PString 0)) (Some (PInteger 2))
    eq_refl eq_refl eq_refl eq_refl)) 0 2%Z [104; 105]%Z
    eq_refl eq_refl eq_refl ltac:(simpl; lia))).
Defined.

(** ** Host functions and [return] *)

(** X22.  A call whose callee evaluates to a host function hands it the list
    of the argument values, in the order of the argument expressions, and is
    whatever the host function does in the heap the callee left: the
    interpreter checks no arity and catches nothing for a host function. *)
Theorem host_function_receives_the_arguments
    jsfn fuel (caller : Node) (args : list Node) scope h vs h1 fn h2 f :
  mapM (fun expr => evaluate jsfn fuel expr scope) args h = Normal vs h1 ->
  evaluate jsfn fuel caller scope h1 = Normal fn h2 ->
  payloadOf fn h2 = Normal (Some (PJsFn f)) h2 ->
  evaluate jsfn (S fuel) (CallExpr caller args) scope h = jsfn f vs h2
  /\ length vs = length args.
Proof.
  intros Ea Ec Hp. split.
  - rewrite (call_reaches_invoke _ _ _ _ _ _ _ _ _ _ Ea Ec).
    unfold invoke. now step_bind Hp.
  - clear Ec Hp. revert h vs h1 Ea.
    induction args as [|a args IH]; intros h vs h1 Ea.
    + simpl in Ea. now injection Ea as <- <-.
    + rewrite mapM_cons in Ea. unfold bind in Ea.
      destruct (evaluate jsfn fuel a scope h) as [v h'| | |];
        try discriminate Ea.
      destruct (mapM _ args h') as [vs' h''| | |] eqn:E;
        try discriminate Ea.
      injection Ea as <- <-. simpl. f_equal. exact (IH _ _ _ E).
Qed.

(** [strings.len("hi", "hi")] in the global scope: the arity error is that
    of [strings.len]. *)
Lemma host_function_receives_the_arguments_witness :
  evaluate builtins 3
    (CallExpr (MemberExpr (IdentifierExpr "strings") (IdentifierExpr "len"))
       [StringLiteralExpr 0; StringLiteralExpr 0])
    0 (globalScope [[104; 105]%Z])
  = strings_len [JRef 4; JRef 5]
      (with_value (with_value (globalScope [[104; 105]%Z]) (PString 0))
         (PString 0)).
Proof.
  apply (proj1 (host_function_receives_the_arguments builtins 2
    (MemberExpr (IdentifierExpr "strings") (IdentifierExpr "len"))
    [StringLiteralExpr 0; StringLiteralExpr 0] 0
    (globalScope [[104; 105]%Z])
    [JRef 4; JRef 5]
    (with_value (with_value (globalScope [[104; 105]%Z]) (PString 0))
       (PString 0))
    (JRef 0)
    (with_value (with_value (globalScope [[104; 105]%Z]) (PString 0))
       (PString 0))
    0
    eq_refl ltac:(vm_compute; reflexivity) eq_refl)).
Defined.

(** X23.  A [return] statement that is not inside a function call is not
    caught: it ends the program with the Return exception that carries the
    value of its expression, in the heap that evaluation left, and the
    statements after it are not evaluated. *)
Theorem return_outside_a_function_ends_the_program
    jsfn fuel (pre post : list Node) (expr : Node) scope h h1 v h2 :
  forM_ (fun s => evaluate jsfn (S fuel) s scope) pre (with_value h PNull)
  = Normal tt h1 ->
  evaluate jsfn fuel expr scope h1 = Normal v h2 ->
  interpret jsfn (S fuel) (pre ++ ReturnStmt expr :: post) scope h
  = Throw (Return v) h2.
Proof.
  intros Hpre Ev. unfold interpret, NullValue, alloc. unfold bind at 1.
  rewrite (interpretLoop_after _ _ _ _ _ _ _ _ Hpre).
  rewrite evaluate_S. unfold evaluateNode, evalReturnStmt.
  unfold bind at 1. step_bind Ev. reflexivity.
Qed.

(** [return 1; 1 / 0;] *)
Lemma return_outside_a_function_ends_the_program_witness :
  interpret builtins 2 [ReturnStmt (IntegerLiteralExpr 1); one_over_zero] 0
    (parsed [])
  = Throw (Return (JRef 1))
      {| values := [PNull; PInteger 1]; buffers := []; objects := [];
         scopes := [root_scope] |}.
Proof.
  apply (return_outside_a_function_ends_the_program builtins 1 []
           [one_over_zero] (IntegerLiteralExpr 1) 0 (parsed [])
           (with_value (parsed []) PNull) (JRef 1)
           {| values := [PNull; PInteger 1]; buffers := []; objects := [];
              scopes := [root_scope] |}
           eq_refl eq_refl).
Defined.
